(** * The dubbo-js provider engine (packages/dubbo/src/server/dubbo-server.ts)

    A shallow embedding of the class [DubboServer]: the routing table and
    [matchService], the request dispatcher [invokeComposeChainRequest] with
    its koa-style middleware chain, [use], the registry publisher
    ([registerServices], [buildUrl]) and the per-connection frame handler
    [handleSocketRequest].

    The routing table is a finite map; the methods object of a descriptor is
    read by property name along its prototype chain; user code is a
    computation on the live context of the request: a middleware in a small
    state-and-exception monad, a service method as a function that returns
    the context as it left it.  [await] is sequential composition, so a
    middleware that starts [next()] and does not await it is outside the
    model. *)

From Stdlib Require Import ZArith Ascii String List Bool Lia.
From stdpp Require Import base option list strings gmap pretty.

Local Open Scope Z_scope.

(** ** JavaScript values *)

(** The values that travel through the dispatcher: request arguments, method
    results, thrown values.  [VError name message] is an [Error] object,
    [VCtx] is the reference to the [ResponseContext] of the request being
    served, [VObject] stands for any other object. *)
Inductive JsValue : Type :=
  | VUndefined
  | VNull
  | VBool (b : bool)
  | VNum (n : Z)
  | VStr (s : string)
  | VError (name message : string)
  | VCtx
  | VObject (tag : nat).

(** A field of the response body is populated when it holds something other
    than [null] or [undefined]. *)
Definition populated (v : JsValue) : bool :=
  match v with
  | VUndefined | VNull => false
  | _ => true
  end.

(** [`${x}`] for a possibly absent string. *)
Definition template (o : option string) : string :=
  match o with
  | Some s => s
  | None => "undefined"
  end.

(** [a !== b] on values that are a string or [undefined]. *)
Definition strict_neq (a b : option string) : bool :=
  match a, b with
  | Some x, Some y => negb (String.eqb x y)
  | None, None => false
  | _, _ => true
  end.

(** [s || d]: the empty string is falsy, like [undefined]. *)
Definition or_default (o : option string) (d : string) : string :=
  match o with
  | Some s => if String.eqb s "" then d else s
  | None => d
  end.

(** ** Requests and response contexts *)

Module Attachment.
Record t : Type := mk {
  path : option string;
  group : option string;
  version : option string
}.
End Attachment.

Record Request : Type := {
  methodName : string;
  args : option (list JsValue);
  attachment : Attachment.t
}.

Inductive ResponseStatus : Type :=
  | OK
  | SERVICE_NOT_FOUND
  | SERVER_ERROR.

Record Body : Type := {
  res : JsValue;
  err : JsValue
}.

(** Modelled from the spec: the class [ResponseContext] of
    ./response-context is not part of the sources.  The spec gives it a
    status, which is unset until something assigns it, and a body
    [{result, error}]; the dispatcher reads and assigns [ctx.status],
    [ctx.body] and [ctx.body.err] from outside the class. *)
Record ResponseContext : Type := {
  request : Request;
  status : option ResponseStatus;
  body : Body
}.

(** [new ResponseContext(request)] *)
Definition new_ResponseContext (r : Request) : ResponseContext :=
  {| request := r; status := None; body := {| res := VNull; err := VNull |} |}.

Definition set_status (s : ResponseStatus) (c : ResponseContext) : ResponseContext :=
  {| request := request c; status := Some s; body := body c |}.

Definition set_body (b : Body) (c : ResponseContext) : ResponseContext :=
  {| request := request c; status := status c; body := b |}.

(** [ctx.body.err = e]: the body object stays, its [err] field changes. *)
Definition set_body_err (e : JsValue) (c : ResponseContext) : ResponseContext :=
  set_body {| res := res (body c); err := e |} c.

(** ** The monad of user code *)

Inductive Outcome (A : Type) : Type :=
  | Normal (a : A)
  | Raised (e : JsValue).
Arguments Normal {A} a.
Arguments Raised {A} e.

(** What can be observed of a run besides the context: the calls of service
    methods, and the marks that instrumented middlewares leave. *)
Inductive Event : Type :=
  | Invoked (iface method : string) (argv : list JsValue)
  | Entered (tag : nat)
  | Left (tag : nat).

(** The state one run of a composed chain works on: the context of the
    request, the [index] variable of koa-compose's closure, and the trace. *)
Record World : Type := {
  ctx : ResponseContext;
  index : Z;
  trace : list Event
}.

Definition M (A : Type) : Type := World -> Outcome A * World.

Definition ret {A} (a : A) : M A := fun w => (Normal a, w).

Definition throw {A} (e : JsValue) : M A := fun w => (Raised e, w).

Definition bind {A B} (m : M A) (k : A -> M B) : M B :=
  fun w =>
    match m w with
    | (Normal a, w') => k a w'
    | (Raised e, w') => (Raised e, w')
    end.

(** [try { m } catch (e) { h e }] *)
Definition try_catch {A} (m : M A) (h : JsValue -> M A) : M A :=
  fun w =>
    match m w with
    | (Normal a, w') => (Normal a, w')
    | (Raised e, w') => h e w'
    end.

Notation "'do' x <- m ; k" := (bind m (fun x => k))
  (at level 10, x name, m at level 100, k at level 200).
Notation "m ;; k" := (bind m (fun _ => k))
  (at level 100, right associativity).

Definition modify_ctx (f : ResponseContext -> ResponseContext) : M unit :=
  fun w => (Normal tt, {| ctx := f (ctx w); index := index w; trace := trace w |}).

Definition set_index (i : Z) (w : World) : World :=
  {| ctx := ctx w; index := i; trace := trace w |}.

Definition mark (e : Event) : M unit :=
  fun w => (Normal tt, {| ctx := ctx w; index := index w; trace := trace w ++ [e] |}).

(** ** koa-compose *)

(** A middleware is a function of the context and of [next]; the context is
    the state of the monad, [next] runs the rest of the chain. *)
Definition Middleware : Type := M unit -> M unit.

(** [dispatch(i)] of koa-compose, on the stages from position [i] on.  A
    second call of the same [next] finds [i <= index] and is rejected; past
    the last stage [fn] is the absent outer [next] and the promise resolves. *)
Fixpoint dispatch (middleware : list Middleware) (i : Z) : M unit :=
  fun w =>
    if i <=? index w then
      (Raised (VError "Error" "next() called multiple times"), w)
    else
      let w' := set_index i w in
      match middleware with
      | [] => (Normal tt, w')
      | fn :: rest => fn (dispatch rest (i + 1)) w'
      end.

(** [compose(middleware)(context)] *)
Definition compose (middleware : list Middleware) : M unit :=
  fun w => dispatch middleware 0 (set_index (-1) w).

(** ** Services and the server *)

(** Modelled from the spec: the type [IDubboService] of ../types is not
    part of the sources; the spec gives a handler the signature
    [(args..., context) -> result].  A service method is applied to its
    argument list (the request's arguments and then the context reference)
    with the live context of the request at hand: it returns a value or
    throws, and it leaves the context as its own assignments made it
    ([ctx.status], [ctx.body]).  The descriptor it is applied on as [this]
    is not changed by the methods of the model. *)
Definition Method : Type :=
  list JsValue -> ResponseContext -> Outcome JsValue * ResponseContext.

(** What a property of an object holds: a function or another value. *)
Inductive Member : Type :=
  | MFunction (f : Method)
  | MValue (v : JsValue).

(** A JavaScript object read by property name: its own properties, in the
    order [Object.keys] reports them (a name occurs once), and the
    properties that its prototype chain provides; for an object literal
    these are the properties of [Object.prototype]: [toString],
    [constructor], [hasOwnProperty], [__proto__] and the like. *)
Record JsObject : Type := {
  own : list (string * Member);
  inherited : list (string * Member)
}.

Record IDubboService : Type := {
  dubboInterface : string;
  group : option string;
  version : option string;
  methods : JsObject
}.

Fixpoint lookup_member (ms : list (string * Member)) (name : string) : option Member :=
  match ms with
  | [] => None
  | (k, m) :: rest => if String.eqb k name then Some m else lookup_member rest name
  end.

(** [methods[name]]: the property lookup follows the prototype chain, an
    own property hiding an inherited one of the same name. *)
Definition lookup_method (ms : JsObject) (name : string) : option Member :=
  match lookup_member (own ms) name with
  | Some m => Some m
  | None => lookup_member (inherited ms) name
  end.

(** [typeof m === 'undefined'] *)
Definition typeof_undefined (m : option Member) : bool :=
  match m with
  | None => true
  | Some (MValue VUndefined) => true
  | Some _ => false
  end.

(** The [TypeError] of [method.apply(...)] on a member that is no function. *)
Definition apply_error (m : option Member) : JsValue :=
  match m with
  | None | Some (MValue VUndefined) =>
      VError "TypeError" "Cannot read properties of undefined (reading 'apply')"
  | Some (MValue VNull) =>
      VError "TypeError" "Cannot read properties of null (reading 'apply')"
  | Some _ => VError "TypeError" "method.apply is not a function"
  end.

Record DubboServer : Type := {
  port : option Z;
  registry : string;
  services : list IDubboService;
  serviceMap : gmap string IDubboService;
  middlewares : list Middleware
}.

(** The collaborators the class imports: the codec, the return-value check,
    the heartbeat predicate, and what the process and the host provide. *)
Class Collaborators : Type := {
  decodeDubboRequest : list Byte.byte -> Request;
  encodeResponse : ResponseContext -> list Byte.byte;
  checkRetValHessian : JsValue -> bool;
  isHeartBeat : list Byte.byte -> bool;
  ipAddress : string;
  processPid : Z
}.

Section Server.
Context {env : Collaborators}.

(** [matchService]: the router. *)
Definition matchService (self : DubboServer) (request : Request) : option IDubboService :=
  let name := methodName request in
  let reqPath := Attachment.path (attachment request) in
  let reqGroup := default "" (Attachment.group (attachment request)) in
  let reqVersion := Attachment.version (attachment request) in
  match reqPath ≫= (fun p => serviceMap self !! p) with
  | None => None
  | Some service =>
      if typeof_undefined (lookup_method (methods service) name)
         || strict_neq (group service) (Some reqGroup)
         || strict_neq (version service) reqVersion
      then None
      else Some service
  end.

(** The locals [res] and [err] of [handleRequest] once its try statement
    is over: [res] is assigned as soon as the method returns, before the
    check of the returned value; a thrown value, or the error of a failed
    check, lands in [err]. *)
Definition after_try (request : Request) (called : Outcome JsValue) : Body :=
  match called with
  | Normal v =>
      if checkRetValHessian v
      then {| res := v; err := VNull |}
      else {| res := v;
              err := VError "Error"
                       (template (Attachment.path (attachment request)) +:+ "#"
                        +:+ methodName request +:+ " return value not hessian type") |}
  | Raised e => {| res := VNull; err := e |}
  end.

(** The terminal stage [handleRequest] that the dispatcher appends to the
    chain; it takes the context only and never calls [next].  The status
    is assigned before the method is applied, and the method is applied on
    the live context, so what the method assigns to [ctx.status] stays;
    [ctx.body] is assigned after the call. *)
Definition handleRequest (service : IDubboService) (request : Request) : Middleware :=
  fun _ =>
    let method := lookup_method (methods service) (methodName request) in
    modify_ctx (set_status OK) ;;
    match method with
    | Some (MFunction f) =>
        let argv := default [] (args request) ++ [VCtx] in
        mark (Invoked (dubboInterface service) (methodName request) argv) ;;
        fun w =>
          let (called, left) := f argv (ctx w) in
          (Normal tt,
           {| ctx := set_body (after_try request called) left;
              index := index w; trace := trace w |})
    | other =>
        (* [method.apply(...)] throws inside the try block *)
        modify_ctx (set_body {| res := VNull; err := apply_error other |})
    end.

(** The context the terminal stage leaves, and the calls it makes. *)
Definition terminal_ctx (service : IDubboService) (request : Request)
    (c : ResponseContext) : ResponseContext :=
  match lookup_method (methods service) (methodName request) with
  | Some (MFunction f) =>
      let (called, left) := f (default [] (args request) ++ [VCtx]) (set_status OK c) in
      set_body (after_try request called) left
  | other => set_body {| res := VNull; err := apply_error other |} (set_status OK c)
  end.

Definition terminal_calls (service : IDubboService) (request : Request) : list Event :=
  match lookup_method (methods service) (methodName request) with
  | Some (MFunction _) =>
      [Invoked (dubboInterface service) (methodName request)
         (default [] (args request) ++ [VCtx])]
  | _ => []
  end.

Definition not_found_message (request : Request) : string :=
  "Service not found with " +:+ template (Attachment.path (attachment request))
  +:+ " and " +:+ methodName request
  +:+ ", group:" +:+ default "" (Attachment.group (attachment request))
  +:+ ", version:" +:+ template (Attachment.version (attachment request)).

(** What the chain built for one matched request does to a fresh world. *)
Definition run_chain (self : DubboServer) (service : IDubboService)
    (request : Request) (tr : list Event) : Outcome unit * World :=
  compose (middlewares self ++ [handleRequest service request])
    {| ctx := new_ResponseContext request; index := -1; trace := tr |}.

(** [invokeComposeChainRequest]: the dispatcher.  It returns the context
    and the trace as the request leaves it. *)
Definition invokeComposeChainRequest (self : DubboServer) (data : list Byte.byte)
    (tr : list Event) : ResponseContext * list Event :=
  let request := decodeDubboRequest data in
  let service := matchService self request in
  let ctx0 := new_ResponseContext request in
  match service with
  | None =>
      (set_body_err (VError "Error" (not_found_message request))
         (set_status SERVICE_NOT_FOUND ctx0), tr)
  | Some service =>
      match run_chain self service request tr with
      | (Normal _, w) => (ctx w, trace w)
      | (Raised e, w) => (set_body_err e (set_status SERVER_ERROR (ctx w)), trace w)
      end
  end.

End Server.

(** ** Percent-encoding and query strings *)

(** Strings are sequences of bytes (UTF-8).  [encodeURIComponent] and
    [querystring.escape] keep the same characters: letters, digits and
    [- _ . ! ~ * ' ( )]; every other byte becomes [%XX]. *)
Definition unreserved (c : ascii) : bool :=
  let n := N_of_ascii c in
  ((48 <=? n) && (n <=? 57))%N || ((65 <=? n) && (n <=? 90))%N
  || ((97 <=? n) && (n <=? 122))%N
  || existsb (Ascii.eqb c)
       ["-"; "_"; "."; "!"; "~"; "*"; "'"; "("; ")"]%char.

Definition hexDigit (n : N) : ascii :=
  match n with
  | 0 => "0" | 1 => "1" | 2 => "2" | 3 => "3" | 4 => "4" | 5 => "5"
  | 6 => "6" | 7 => "7" | 8 => "8" | 9 => "9" | 10 => "A" | 11 => "B"
  | 12 => "C" | 13 => "D" | 14 => "E" | _ => "F"
  end%N%char.

Definition hexValue (c : ascii) : option N :=
  let n := N_of_ascii c in
  if ((48 <=? n) && (n <=? 57))%N then Some (n - 48)%N
  else if ((65 <=? n) && (n <=? 70))%N then Some (n - 55)%N
  else if ((97 <=? n) && (n <=? 102))%N then Some (n - 87)%N
  else None.

Definition escapeChar (c : ascii) : string :=
  if unreserved c then String c EmptyString
  else
    let n := N_of_ascii c in
    String "%" (String (hexDigit (n / 16)) (String (hexDigit (n mod 16)) EmptyString)).

Fixpoint encodeURIComponent (s : string) : string :=
  match s with
  | EmptyString => EmptyString
  | String c t => escapeChar c +:+ encodeURIComponent t
  end.

(** The inverse reading of [%XX], used to state what an encoded URL says. *)
Fixpoint decodeURIComponent (s : string) : string :=
  match s with
  | EmptyString => EmptyString
  | String c t =>
      if Ascii.eqb c "%" then
        match t with
        | String h (String l rest) =>
            match hexValue h, hexValue l with
            | Some a, Some b => String (ascii_of_N (a * 16 + b)) (decodeURIComponent rest)
            | _, _ => String c (decodeURIComponent t)
            end
        | _ => String c (decodeURIComponent t)
        end
      else String c (decodeURIComponent t)
  end.

(** The values [querystring.stringify] prints: a string, a number or a
    boolean as itself, anything else as the empty string. *)
Inductive QsValue : Type :=
  | QStr (s : string)
  | QNum (n : Z)
  | QBool (b : bool)
  | QOther.

Definition stringifyPrimitive (v : QsValue) : string :=
  match v with
  | QStr s => s
  | QNum n => pretty n
  | QBool true => "true"
  | QBool false => "false"
  | QOther => ""
  end.

Definition qs_pair (kv : string * QsValue) : string :=
  encodeURIComponent (fst kv) +:+ "=" +:+ encodeURIComponent (stringifyPrimitive (snd kv)).

(** [qs.stringify(obj)] on the object's entries in key order. *)
Definition qs_stringify (obj : list (string * QsValue)) : string :=
  String.concat "&" (map qs_pair obj).

Definition qs_of_option (o : option string) : QsValue :=
  match o with
  | Some s => QStr s
  | None => QOther
  end.

(** [`${this.port}`] *)
Definition template_port (p : option Z) : string :=
  match p with
  | Some n => pretty n
  | None => "undefined"
  end.

(** ** Registration, construction and [use] *)

Record RegistryCall : Type := {
  call_registry : string;
  call_type : string;
  call_services : list (string * string)
}.

Record IDubboServerProps : Type := {
  props_registry : string;
  props_services : option (list IDubboService)
}.

Inductive UseArg : Type :=
  | Callable (fn : Middleware)
  | NotCallable (v : JsValue).

Section Registration.
Context {env : Collaborators}.

(** The query object of [buildUrl], in key order. *)
Definition url_query (service : IDubboService) (now : Z) : list (string * QsValue) :=
  [ ("group", qs_of_option (group service));
    ("version", qs_of_option (version service));
    ("method", QStr (String.concat "," (map fst (own (methods service)))));
    ("side", QStr "provider");
    ("pid", QNum processPid);
    ("generic", QBool false);
    ("protocal", QStr "dubbo");
    ("dynamic", QBool true);
    ("category", QStr "providers");
    ("anyhost", QBool true);
    ("timestamp", QNum now) ].

(** The URL before the outer [encodeURIComponent]. *)
Definition raw_url (self : DubboServer) (service : IDubboService) (now : Z) : string :=
  "dubbo://" +:+ ipAddress +:+ ":" +:+ template_port (port self) +:+ "/"
  +:+ dubboInterface service +:+ "?" +:+ qs_stringify (url_query service now).

(** [buildUrl]; [now] is what [Date.now()] returns. *)
Definition buildUrl (self : DubboServer) (service : IDubboService) (now : Z) : string :=
  encodeURIComponent (raw_url self service now).

(** The two assignments at the head of the callback of [registerServices]. *)
Definition normalize (service : IDubboService) : IDubboService :=
  {| dubboInterface := dubboInterface service;
     group := Some (or_default (group service) "");
     version := Some (or_default (version service) "0.0.0");
     methods := methods service |}.

(** [registerServices]: every descriptor is normalized in place, entered
    in the routing table under its interface, and listed with its URL;
    the list goes to the registry in one call. *)
Definition registerServices (self : DubboServer) (now : Z) : DubboServer * RegistryCall :=
  let normalized := map normalize (services self) in
  let table := foldl (fun m s => <[dubboInterface s := s]> m) (serviceMap self) normalized in
  let registryService := map (fun s => (dubboInterface s, buildUrl self s now)) normalized in
  ({| port := port self; registry := registry self; services := normalized;
      serviceMap := table; middlewares := middlewares self |},
   {| call_registry := registry self; call_type := "provider";
      call_services := registryService |}).

(** The constructor, up to its call of [listen]. *)
Definition new_DubboServer (props : IDubboServerProps) : DubboServer :=
  {| port := None; registry := props_registry props;
     services := default [] (props_services props);
     serviceMap := ∅; middlewares := [] |}.

(** [listen] with the port [randomPort] chose: when the bind succeeds the
    listening callback registers the services, when it fails the retry
    container is started and nothing is registered. *)
Definition listen (self : DubboServer) (chosen : Z) (bound : bool) (now : Z)
    : DubboServer * option RegistryCall :=
  let self' := {| port := Some chosen; registry := registry self; services := services self;
                  serviceMap := serviceMap self; middlewares := middlewares self |} in
  if bound then
    let (self'', call) := registerServices self' now in (self'', Some call)
  else (self', None).

(** [use] *)
Definition use (self : DubboServer) (fn : UseArg) : Outcome unit * DubboServer :=
  match fn with
  | NotCallable _ => (Raised (VError "TypeError" "middleware must be a function"), self)
  | Callable fn =>
      (Normal tt,
       {| port := port self; registry := registry self; services := services self;
          serviceMap := serviceMap self; middlewares := middlewares self ++ [fn] |})
  end.

End Registration.

(** ** The connection handler *)

(** Modelled from the spec: the class [HeartBeat] of
    ../serialization/heartbeat is not part of the sources.  The spec gives a
    heartbeat session a timestamp of its last activity; [emit] signals the
    session and records that heartbeat activity occurred, and
    [setWriteTimestamp] records an outbound write.  [signals] counts the
    calls of [emit]. *)
Record HeartBeat : Type := {
  lastTimestamp : Z;
  signals : nat
}.

Definition HeartBeat_from (now : Z) : HeartBeat :=
  {| lastTimestamp := now; signals := 0 |}.

Definition HeartBeat_emit (now : Z) (h : HeartBeat) : HeartBeat :=
  {| lastTimestamp := now; signals := S (signals h) |}.

Definition setWriteTimestamp (now : Z) (h : HeartBeat) : HeartBeat :=
  {| lastTimestamp := now; signals := signals h |}.

(** One accepted socket: its heartbeat session, the frames written to it,
    the frames handed to the dispatcher, and the trace of the requests
    served on it. *)
Record Connection : Type := {
  heartbeat : HeartBeat;
  written : list (list Byte.byte);
  dispatched : list (list Byte.byte);
  served : list Event
}.

Section Connections.
Context {env : Collaborators}.

(** [handleSocketRequest], on accept. *)
Definition handleSocketRequest (now : Z) : Connection :=
  {| heartbeat := HeartBeat_from now; written := []; dispatched := []; served := [] |}.

(** The subscriber of [handleSocketRequest], on one frame that arrives at
    time [now]. *)
Definition onFrame (self : DubboServer) (c : Connection) (frame : Z * list Byte.byte)
    : Connection :=
  let (now, data) := frame in
  if isHeartBeat data then
    {| heartbeat := HeartBeat_emit now (heartbeat c); written := written c;
       dispatched := dispatched c; served := served c |}
  else
    let (ctx', tr) := invokeComposeChainRequest self data (served c) in
    {| heartbeat := setWriteTimestamp now (heartbeat c);
       written := written c ++ [encodeResponse ctx'];
       dispatched := dispatched c ++ [data];
       served := tr |}.

(** The frames of one connection, in delivery order. *)
Definition onFrames (self : DubboServer) (c : Connection)
    (frames : list (Z * list Byte.byte)) : Connection :=
  foldl (onFrame self) c frames.

End Connections.

(** ** Instrumented middlewares *)

(** A middleware that leaves a mark before and after the rest of the chain. *)
Definition probe (tag : nat) : Middleware :=
  fun next => mark (Entered tag) ;; next ;; mark (Left tag).

(** A middleware that returns without calling [next]. *)
Definition short_circuit (tag : nat) : Middleware :=
  fun _ => mark (Entered tag).

(** A middleware that throws before, or after, calling [next]. *)
Definition throw_before (e : JsValue) : Middleware :=
  fun _ => throw e.

Definition throw_after (e : JsValue) : Middleware :=
  fun next => next ;; throw e.

(** A middleware that assigns the status itself after the rest of the chain. *)
Definition force_status (s : ResponseStatus) : Middleware :=
  fun next => next ;; modify_ctx (set_status s).

(** ** An example server *)

(** [hello: (name, ctx) => "hi " + name] *)
Definition hello : Method :=
  fun argv c =>
    match argv with
    | VStr name :: _ => (Normal (VStr ("hi " +:+ name)), c)
    | _ => (Normal (VStr "hi undefined"), c)
    end.

(** A method that returns an object the wire format has no type for, one
    that throws, and one that assigns [ctx.status] and then throws. *)
Definition opaque : Method := fun _ c => (Normal (VObject 0), c).

Definition failing : Method := fun _ c => (Raised (VError "Error" "boom"), c).

Definition denying : Method :=
  fun _ c => (Raised (VError "Error" "denied"), set_status SERVER_ERROR c).

(** What an object literal inherits: some of the properties of
    [Object.prototype]. *)
Definition Object_toString : Method :=
  fun _ c => (Normal (VStr "[object Object]"), c).

Definition Object_prototype : list (string * Member) :=
  [ ("constructor", MFunction (fun _ c => (Normal (VObject 1), c)));
    ("hasOwnProperty", MFunction (fun _ c => (Normal (VBool false), c)));
    ("toString", MFunction Object_toString);
    ("valueOf", MFunction (fun _ c => (Normal (VObject 2), c)));
    ("__proto__", MValue (VObject 3)) ].

(** [{hello, opaque, failing, denying}] *)
Definition fooBar : IDubboService :=
  {| dubboInterface := "com.foo.Bar"; group := None; version := None;
     methods := {| own := [("hello", MFunction hello); ("opaque", MFunction opaque);
                           ("failing", MFunction failing); ("denying", MFunction denying)];
                   inherited := Object_prototype |} |}.

(** The codec is a collaborator; the example codec reads a one-byte tag
    that selects the request. *)
Definition demo_request (name : string) (g v : option string) : Request :=
  {| methodName := name; args := Some [VStr "world"];
     attachment := Attachment.mk (Some "com.foo.Bar") g v |}.

Definition demo_decode (data : list Byte.byte) : Request :=
  match data with
  | Byte.x01 :: _ => demo_request "hello" None (Some "0.0.0")
  | Byte.x02 :: _ => demo_request "hello" (Some "v2") (Some "0.0.0")
  | Byte.x03 :: _ => demo_request "hello" None None
  | Byte.x04 :: _ => demo_request "opaque" None (Some "0.0.0")
  | Byte.x05 :: _ => demo_request "failing" None (Some "0.0.0")
  | Byte.x06 :: _ => demo_request "missing" None (Some "0.0.0")
  | Byte.x07 :: _ => demo_request "denying" None (Some "0.0.0")
  | Byte.x08 :: _ => demo_request "toString" None (Some "0.0.0")
  | Byte.x09 :: _ => demo_request "__proto__" None (Some "0.0.0")
  | _ => {| methodName := "hello"; args := None;
            attachment := Attachment.mk None None None |}
  end.

#[local] Instance demo_env : Collaborators := {|
  decodeDubboRequest := demo_decode;
  encodeResponse := fun c =>
    match status c with
    | Some OK => [Byte.x14]
    | Some SERVICE_NOT_FOUND => [Byte.x3c]
    | Some SERVER_ERROR => [Byte.x50]
    | None => [Byte.x00]
    end;
  checkRetValHessian := fun v => match v with VObject _ | VCtx => false | _ => true end;
  isHeartBeat := fun data => match data with Byte.xe2 :: _ => true | _ => false end;
  ipAddress := "10.0.0.7";
  processPid := 4242
|}.

Definition demo_props : IDubboServerProps :=
  {| props_registry := "zk://127.0.0.1:2181"; props_services := Some [fooBar] |}.

(** The example server once its listener is bound. *)
Definition demo_server : DubboServer :=
  fst (listen (new_DubboServer demo_props) 20880 true 1600000000000).

(** A server with another list of registered middlewares. *)
Definition with_middlewares (self : DubboServer) (ms : list Middleware) : DubboServer :=
  {| port := port self; registry := registry self; services := services self;
     serviceMap := serviceMap self; middlewares := ms |}.

(** [use] on each function of a list, in order. *)
Definition use_all (self : DubboServer) (fns : list Middleware) : DubboServer :=
  foldl (fun s fn => snd (use s (Callable fn))) self fns.

(** The example server after [use] of one middleware that assigns
    [SERVER_ERROR] itself, of one that returns without calling [next], and
    of two instrumented middlewares. *)
Definition demo_forced : DubboServer :=
  use_all demo_server [force_status SERVER_ERROR].

Definition demo_short : DubboServer :=
  use_all demo_server [short_circuit 0].

Definition demo_probed : DubboServer :=
  use_all demo_server [probe 1; probe 2].

(** ** The invariant the spec states for a finished dispatch *)

(** Exactly one of [body.res] and [body.err] is populated, and the status
    is one of the three values of the enumeration. *)
Definition exactly_one_populated (b : Body) : bool :=
  xorb (populated (res b)) (populated (err b)).

Definition status_assigned (c : ResponseContext) : bool :=
  match status c with
  | Some _ => true
  | None => false
  end.

(** ** Predicates on user code *)

(** The status is not [SERVER_ERROR]. *)
Definition no_server_error (w : World) : Prop :=
  status (ctx w) ≠ Some SERVER_ERROR.

(** A computation, and a middleware given a [next] that does, never moves
    the world out of [P]. *)
Definition preserves (P : World -> Prop) (c : M unit) : Prop :=
  ∀ w, P w → P (snd (c w)).

Definition keeps (P : World -> Prop) (m : Middleware) : Prop :=
  ∀ next, preserves P next → preserves P (m next).

(** A computation that, when it completes, leaves a context in [Q]; and a
    middleware that hands such a guarantee of its [next] on. *)
Definition establishes (Q : ResponseContext -> Prop) (c : M unit) : Prop :=
  ∀ w w', c w = (Normal tt, w') → Q (ctx w').

Definition hands_on (Q : ResponseContext -> Prop) (m : Middleware) : Prop :=
  ∀ next, establishes Q next → establishes Q (m next).

(** A method that does not assign [SERVER_ERROR] to the context, a member
    that is no function or such a method, and a method that leaves
    [ctx.status] as it finds it. *)
Definition method_quiet (f : Method) : Prop :=
  ∀ argv c, status c ≠ Some SERVER_ERROR → status (snd (f argv c)) ≠ Some SERVER_ERROR.

Definition member_quiet (m : option Member) : Prop :=
  ∀ f, m = Some (MFunction f) → method_quiet f.

Definition leaves_status (f : Method) : Prop :=
  ∀ argv c, status (snd (f argv c)) = status c.

(** A middleware whose run does not depend on [next]: it never calls it. *)
Definition ignores_next (m : Middleware) : Prop :=
  ∀ next next', m next = m next'.

(** The world once the stages [probe t] for [t] in [tags], at positions [i]
    onwards, have run their code before [next]; and the marks they leave
    once [next] has returned. *)
Fixpoint entered (tags : list nat) (i : Z) (w : World) : World :=
  match tags with
  | [] => w
  | t :: ts => entered ts (i + 1) (snd (mark (Entered t) (set_index i w)))
  end.

Definition leave (tags : list nat) (w : World) : World :=
  {| ctx := ctx w; index := index w; trace := trace w ++ map Left tags |}.

(** ** The life of a server *)

(** The table that registration builds from the declared descriptors. *)
Definition routing_table (declared : list IDubboService) : gmap string IDubboService :=
  foldl (fun m s => <[dubboInterface s := s]> m) ∅ (map normalize declared).

(** The last descriptor declared for an interface. *)
Definition last_declared (declared : list IDubboService) (iface : string)
    : option IDubboService :=
  last (filter (fun s => dubboInterface s = iface) declared).

(** The states a server built from [props] goes through: the constructor,
    then binds of the listener, failed or successful, and calls of [use]. *)
Inductive reachable `{env : Collaborators} (props : IDubboServerProps)
    : DubboServer -> Prop :=
  | reach_new : reachable props (new_DubboServer props)
  | reach_listen self chosen bound now :
      reachable props self → reachable props (fst (listen self chosen bound now))
  | reach_use self fn :
      reachable props self → reachable props (snd (use self fn)).

(** ** Further middlewares and observations *)

(** A middleware that calls [next] a second time once the first call has
    returned, and one that wraps [next] in [try { } catch { }] and drops
    what it catches. *)
Definition call_twice : Middleware :=
  fun next => next ;; next.

Definition shield : Middleware :=
  fun next => try_catch next (fun _ => ret tt).

(** The calls of service methods in a trace. *)
Definition is_invocation (e : Event) : bool :=
  match e with
  | Invoked _ _ _ => true
  | _ => false
  end.

Definition invocations (tr : list Event) : list Event :=
  List.filter is_invocation tr.

(** A sequence of calls of [use], each on the server the one before left;
    a call that throws leaves the server as it was. *)
Definition use_each (self : DubboServer) (fns : list UseArg) : DubboServer :=
  foldl (fun s fn => snd (use s fn)) self fns.

Fixpoint callables (fns : list UseArg) : list Middleware :=
  match fns with
  | [] => []
  | Callable fn :: rest => fn :: callables rest
  | NotCallable _ :: rest => callables rest
  end.

(** The characters an encoded component is made of. *)
Definition url_safe (c : ascii) : bool :=
  unreserved c || Ascii.eqb c "%".

Fixpoint string_forall (P : ascii -> bool) (s : string) : bool :=
  match s with
  | EmptyString => true
  | String c t => P c && string_forall P t
  end.

(** The frames of a stream that are requests, and the number of those that
    are heartbeats. *)
Definition request_frames `{env : Collaborators} (frames : list (Z * list Byte.byte))
    : list (Z * list Byte.byte) :=
  List.filter (fun fr => negb (isHeartBeat (snd fr))) frames.

Definition heartbeat_count `{env : Collaborators} (frames : list (Z * list Byte.byte))
    : nat :=
  length (List.filter (fun fr => isHeartBeat (snd fr)) frames).

(** The example server after [use] of an instrumented middleware and of one
    that calls [next] twice, and after [use] of a shielding middleware and
    of one that throws; and the properties of a server declared without
    services. *)
Definition demo_twice : DubboServer :=
  use_all demo_server [probe 1; call_twice; probe 2].

Definition demo_shielded : DubboServer :=
  use_all demo_server [shield; throw_before (VStr "refused")].

Definition empty_props : IDubboServerProps :=
  {| props_registry := "zk://127.0.0.1:2181"; props_services := None |}.

(** * Properties *)

(** ** Routing *)

Lemma strict_neq_false (a b : option string) : strict_neq a b = false ↔ a = b.
Proof.
  destruct a as [x|], b as [y|]; simpl; split; try done.
  - intros H. apply negb_false_iff, String.eqb_eq in H. by subst.
  - intros [= ->]. by rewrite String.eqb_refl.
Qed.

Lemma strict_neq_true (a b : option string) : strict_neq a b = true ↔ a ≠ b.
Proof.
  rewrite <- (not_false_iff_true (strict_neq a b)), strict_neq_false. done.
Qed.

Lemma lookup_member_app (before after : list (string * Member)) (name : string) :
  Forall (fun km => fst km ≠ name) before →
  lookup_member (before ++ after) name = lookup_member after name.
Proof.
  induction 1 as [|[k m] before Hk _ IH]; [done|]. simpl in *.
  apply String.eqb_neq in Hk. by rewrite Hk.
Qed.

(** An own property is found under its name, first among the properties of
    that name. *)
Lemma lookup_method_own (ms : JsObject) (name : string) (m : Member)
    (before after : list (string * Member)) :
  own ms = before ++ (name, m) :: after →
  Forall (fun km => fst km ≠ name) before →
  lookup_method ms name = Some m.
Proof.
  intros Hown Hbefore. unfold lookup_method.
  rewrite Hown, lookup_member_app by done. simpl. by rewrite String.eqb_refl.
Qed.

Section Routing.
Context {env : Collaborators}.

(** The router returns a descriptor exactly when the four tests pass. *)
Lemma matchService_Some (self : DubboServer) (request : Request) (service : IDubboService) :
  matchService self request = Some service ↔
  ∃ p, Attachment.path (attachment request) = Some p
       ∧ serviceMap self !! p = Some service
       ∧ typeof_undefined (lookup_method (methods service) (methodName request)) = false
       ∧ group service = Some (default "" (Attachment.group (attachment request)))
       ∧ version service = Attachment.version (attachment request).
Proof.
  unfold matchService.
  destruct (Attachment.path (attachment request)) as [p|]; simpl;
    [|split; [done | by intros (? & ? & _)]].
  destruct (serviceMap self !! p) as [s|] eqn:Hs;
    [|split; [done | by intros (? & [= <-] & ? & _); simplify_eq]].
  destruct (typeof_undefined _ || _ || _) eqn:Htest.
  - split; [done|]. intros (q & [= <-] & Hq & Hm & Hg & Hv). simplify_eq.
    apply orb_true_iff in Htest as [Htest|Htest];
      [apply orb_true_iff in Htest as [Htest|Htest]|].
    + congruence.
    + apply strict_neq_true in Htest. done.
    + apply strict_neq_true in Htest. done.
  - apply orb_false_iff in Htest as [Htest Hv].
    apply orb_false_iff in Htest as [Hm Hg].
    apply strict_neq_false in Hg, Hv.
    split.
    + intros [= <-]. by exists p.
    + intros (q & [= <-] & Hq & _). by simplify_eq.
Qed.

Lemma matchService_None (self : DubboServer) (request : Request) :
  matchService self request = None ↔
  ∀ p service,
    Attachment.path (attachment request) = Some p →
    serviceMap self !! p = Some service →
    typeof_undefined (lookup_method (methods service) (methodName request)) = true
    ∨ group service ≠ Some (default "" (Attachment.group (attachment request)))
    ∨ version service ≠ Attachment.version (attachment request).
Proof.
  split.
  - intros Hnone p service Hp Hs.
    destruct (typeof_undefined (lookup_method (methods service) (methodName request)))
      eqn:Hm; [by left|].
    destruct (decide (group service
                      = Some (default "" (Attachment.group (attachment request)))))
      as [Hg|Hg]; [|by right; left].
    destruct (decide (version service = Attachment.version (attachment request)))
      as [Hv|Hv]; [|by right; right].
    assert (matchService self request = Some service) as Hsome.
    { apply matchService_Some. exists p. eauto 10. }
    congruence.
  - intros Hall. destruct (matchService self request) as [service|] eqn:Hmatch; [|done].
    apply matchService_Some in Hmatch as (p & Hp & Hs & Hm & Hg & Hv).
    destruct (Hall p service Hp Hs) as [?|[?|?]]; congruence.
Qed.

(** The router looks at the table and at nothing else of the server. *)
Lemma matchService_table (self self' : DubboServer) (request : Request) :
  serviceMap self = serviceMap self' →
  matchService self request = matchService self' request.
Proof. unfold matchService. by intros ->. Qed.

(** A matched request names a member of the methods object. *)
Lemma matchService_member (self : DubboServer) (request : Request) (service : IDubboService) :
  matchService self request = Some service →
  ∃ member, lookup_method (methods service) (methodName request) = Some member.
Proof.
  intros (p & _ & _ & Hm & _)%matchService_Some.
  destruct (lookup_method _ _) as [m|]; [by eexists|done].
Qed.

End Routing.

(** ** The terminal stage and the dispatcher *)

(** Open the dispatcher on the request it decoded. *)
Ltac open_dispatcher request :=
  unfold invokeComposeChainRequest; fold request.

Section Dispatcher.
Context {env : Collaborators}.

(** The terminal stage completes normally whatever the member or the method
    does, with the context and the calls that [terminal_ctx] and
    [terminal_calls] describe. *)
Lemma handleRequest_run (service : IDubboService) (request : Request)
    (next : M unit) (w : World) :
  handleRequest service request next w =
    (Normal tt,
     {| ctx := terminal_ctx service request (ctx w);
        index := index w;
        trace := trace w ++ terminal_calls service request |}).
Proof.
  unfold handleRequest, terminal_ctx, terminal_calls.
  destruct (lookup_method (methods service) (methodName request)) as [[f|v]|];
    unfold bind, modify_ctx, mark; simpl; rewrite ?app_nil_r; try done.
  by destruct (f _ _).
Qed.

(** On a function the terminal stage applies it to the request's arguments
    followed by the context, on the context with status [OK], and then
    assigns the body on the context the function left. *)
Lemma terminal_function (service : IDubboService) (request : Request) (f : Method)
    (c : ResponseContext) :
  lookup_method (methods service) (methodName request) = Some (MFunction f) →
  terminal_ctx service request c
  = set_body (after_try request
                (fst (f (default [] (args request) ++ [VCtx]) (set_status OK c))))
      (snd (f (default [] (args request) ++ [VCtx]) (set_status OK c)))
  ∧ terminal_calls service request
    = [Invoked (dubboInterface service) (methodName request)
         (default [] (args request) ++ [VCtx])].
Proof.
  intros Hf. unfold terminal_ctx, terminal_calls. rewrite Hf.
  by destruct (f _ _).
Qed.

(** On a member that is no function nothing is called: the [TypeError] of
    the failed application lands in [body.err]. *)
Lemma terminal_no_function (service : IDubboService) (request : Request)
    (c : ResponseContext) :
  (∀ f, lookup_method (methods service) (methodName request) ≠ Some (MFunction f)) →
  terminal_calls service request = []
  ∧ status (terminal_ctx service request c) = Some OK
  ∧ res (body (terminal_ctx service request c)) = VNull
  ∧ ∃ message, err (body (terminal_ctx service request c)) = VError "TypeError" message.
Proof.
  intros Hno. unfold terminal_ctx, terminal_calls.
  destruct (lookup_method (methods service) (methodName request)) as [[f|v]|].
  - by destruct (Hno f).
  - split_and!; try done. destruct v; simpl; by eexists.
  - split_and!; try done. simpl. by eexists.
Qed.

Lemma dispatch_unfold (fn : Middleware) (rest : list Middleware) (i : Z) (w : World) :
  index w < i →
  dispatch (fn :: rest) i w = fn (dispatch rest (i + 1)) (set_index i w).
Proof. intros Hi. simpl. destruct (Z.leb_spec i (index w)); [lia|done]. Qed.

Lemma dispatch_nil (i : Z) (w : World) :
  index w < i → dispatch [] i w = (Normal tt, set_index i w).
Proof. intros Hi. simpl. destruct (Z.leb_spec i (index w)); [lia|done]. Qed.

(** With no middleware registered the chain is the terminal stage. *)
Lemma run_chain_no_middleware (self : DubboServer) (service : IDubboService)
    (request : Request) (tr : list Event) :
  middlewares self = [] →
  run_chain self service request tr =
    (Normal tt,
     {| ctx := terminal_ctx service request (new_ResponseContext request);
        index := 0;
        trace := tr ++ terminal_calls service request |}).
Proof.
  intros Hms. unfold run_chain, compose. rewrite Hms. simpl app.
  rewrite dispatch_unfold by (simpl; lia). by rewrite handleRequest_run.
Qed.

End Dispatcher.

(** ** The middleware chain *)

Section Chain.
Context {env : Collaborators}.

(** Code sequenced after a throw never runs. *)
Lemma throw_bind {A B} (e : JsValue) (k : A → M B) : bind (throw e) k = throw e.
Proof. reflexivity. Qed.

(** When a stage that never calls [next] is reached, what is registered
    after it has no part in the run. *)
Lemma dispatch_cut (before : list Middleware) (m : Middleware)
    (rest rest' : list Middleware) (i : Z) :
  ignores_next m →
  dispatch (before ++ m :: rest) i = dispatch (before ++ m :: rest') i.
Proof.
  intros Hm. revert i. induction before as [|b before IH]; intros i; simpl.
  - by rewrite (Hm (dispatch rest (i + 1)) (dispatch rest' (i + 1))).
  - by rewrite IH.
Qed.

Lemma entered_trace (tags : list nat) (i : Z) (w : World) :
  trace (entered tags i w) = trace w ++ map Entered tags.
Proof.
  revert i w. induction tags as [|t ts IH]; intros i w; simpl.
  - by rewrite app_nil_r.
  - rewrite IH. simpl. by rewrite <- app_assoc.
Qed.

Lemma entered_ctx (tags : list nat) (i : Z) (w : World) :
  ctx (entered tags i w) = ctx w.
Proof.
  revert i w. induction tags as [|t ts IH]; intros i w; simpl; [done|].
  by rewrite IH.
Qed.

Lemma entered_index (tags : list nat) (i : Z) (w : World) :
  index w < i → index (entered tags i w) < i + Z.of_nat (length tags).
Proof.
  revert i w. induction tags as [|t ts IH]; intros i w Hi; simpl length.
  - simpl. lia.
  - simpl entered. specialize (IH (i + 1) (snd (mark (Entered t) (set_index i w)))).
    simpl in IH. lia.
Qed.

(** Onion composition on instrumented stages: the marks before [next] are
    left in registration order, then the rest of the chain runs, then the
    marks after [next] are left in reverse order; when the rest of the
    chain raises, no mark is left after it. *)
Lemma dispatch_probes (tags : list nat) (rest : list Middleware) (i : Z) (w : World) :
  index w < i →
  dispatch (map probe tags ++ rest) i w =
    match dispatch rest (i + Z.of_nat (length tags)) (entered tags i w) with
    | (Normal _, w') => (Normal tt, leave (rev tags) w')
    | (Raised e, w') => (Raised e, w')
    end.
Proof.
  revert i w. induction tags as [|t ts IH]; intros i w Hi.
  - simpl. rewrite Z.add_0_r.
    destruct (dispatch rest i w) as [[[]|e] [c ix tr]]; [|done].
    unfold leave. simpl. by rewrite app_nil_r.
  - change (map probe (t :: ts) ++ rest) with (probe t :: (map probe ts ++ rest)).
    rewrite dispatch_unfold by done.
    unfold probe at 1. unfold bind. cbn [mark set_index ctx index trace].
    rewrite IH by (simpl; lia).
    replace (i + 1 + Z.of_nat (length ts)) with (i + Z.of_nat (length (t :: ts)))
      by (simpl length; lia).
    change (entered (t :: ts) i w)
      with (entered ts (i + 1)
              {| ctx := ctx w; index := i; trace := trace w ++ [Entered t] |}).
    destruct (dispatch rest _ _) as [[[]|e] [c ix tr]]; [|done].
    unfold leave, mark. simpl. rewrite map_app. simpl. by rewrite <- app_assoc.
Qed.

(** The chain never leaves a status [SERVER_ERROR] behind unless one of
    its stages assigns it. *)
Lemma dispatch_preserves (ms : list Middleware) (i : Z) :
  Forall (keeps no_server_error) ms → preserves no_server_error (dispatch ms i).
Proof.
  intros Hms. revert i. induction Hms as [|m ms Hm _ IH]; intros i w Hw; simpl.
  - by destruct (i <=? index w).
  - destruct (i <=? index w); [done|]. by apply Hm.
Qed.

Lemma handleRequest_keeps (service : IDubboService) (request : Request) :
  member_quiet (lookup_method (methods service) (methodName request)) →
  keeps no_server_error (handleRequest service request).
Proof.
  intros Hquiet next _ w _. rewrite handleRequest_run. unfold no_server_error. simpl.
  destruct (lookup_method (methods service) (methodName request)) as [[f|v]|] eqn:Hm.
  - destruct (terminal_function service request f (ctx w) Hm) as [-> _]. simpl.
    by apply (Hquiet f).
  - unfold terminal_ctx. by rewrite Hm.
  - unfold terminal_ctx. by rewrite Hm.
Qed.

(** An instrumented stage does not touch the status. *)
Lemma probe_keeps (tag : nat) : keeps no_server_error (probe tag).
Proof.
  intros next Hnext w Hw. unfold probe, bind, mark. simpl.
  specialize (Hnext {| ctx := ctx w; index := index w;
                       trace := trace w ++ [Entered tag] |} Hw).
  by destruct (next _) as [[[]|e] w'].
Qed.

Lemma run_chain_preserves (self : DubboServer) (service : IDubboService)
    (request : Request) (tr : list Event) :
  Forall (keeps no_server_error) (middlewares self) →
  member_quiet (lookup_method (methods service) (methodName request)) →
  no_server_error (snd (run_chain self service request tr)).
Proof.
  intros Hms Hquiet. unfold run_chain, compose.
  apply dispatch_preserves; [|done].
  apply Forall_app. split; [done|]. constructor; [|done]. by apply handleRequest_keeps.
Qed.

(** What the terminal stage establishes, and each stage before it hands on,
    holds when the chain completes. *)
Lemma dispatch_establishes (Q : ResponseContext → Prop) (ms : list Middleware)
    (terminal : Middleware) (i : Z) :
  Forall (hands_on Q) ms →
  (∀ next, establishes Q (terminal next)) →
  establishes Q (dispatch (ms ++ [terminal]) i).
Proof.
  intros Hms Hterminal. revert i.
  induction Hms as [|m ms Hm _ IH]; intros i w w'; simpl.
  - destruct (i <=? index w); [done|]. apply Hterminal.
  - destruct (i <=? index w); [done|]. by apply Hm.
Qed.

(** An instrumented stage hands on whatever the rest of the chain leaves. *)
Lemma probe_hands_on (Q : ResponseContext → Prop) (tag : nat) : hands_on Q (probe tag).
Proof.
  intros next Hnext w w'. unfold probe, bind, mark. simpl.
  destruct (next _) as [[[]|e] w1] eqn:Hrun; [|done].
  intros [= <-]. simpl. by apply (Hnext _ _ Hrun).
Qed.

Lemma run_chain_establishes (Q : ResponseContext → Prop) (self : DubboServer)
    (service : IDubboService) (request : Request) (tr : list Event) (w : World) :
  Forall (hands_on Q) (middlewares self) →
  (∀ c, Q (terminal_ctx service request c)) →
  run_chain self service request tr = (Normal tt, w) →
  Q (ctx w).
Proof.
  intros Hms Hterminal. unfold run_chain, compose.
  apply (dispatch_establishes Q); [done|].
  intros next w0 w1. rewrite handleRequest_run. intros [= <-]. apply Hterminal.
Qed.

End Chain.

(** ** What a dispatch leaves *)

Section Outcomes.
Context {env : Collaborators}.

Lemma run_chain_probes (self : DubboServer) (service : IDubboService)
    (request : Request) (tr : list Event) (tags : list nat) (rest : list Middleware) :
  middlewares self = map probe tags ++ rest →
  run_chain self service request tr =
    match dispatch (rest ++ [handleRequest service request]) (Z.of_nat (length tags))
            (entered tags 0 {| ctx := new_ResponseContext request; index := -1; trace := tr |})
    with
    | (Normal _, w') => (Normal tt, leave (rev tags) w')
    | (Raised e, w') => (Raised e, w')
    end.
Proof.
  intros Hms. unfold run_chain, compose. rewrite Hms, <- app_assoc.
  rewrite dispatch_probes by (simpl; lia). reflexivity.
Qed.

(** Behind instrumented middlewares the answer is the context the terminal
    stage leaves from a fresh one; the marks surround its calls. *)
Lemma dispatch_behind_probes (self : DubboServer) (data : list Byte.byte)
    (tr : list Event) (service : IDubboService) (tags : list nat) :
  matchService self (decodeDubboRequest data) = Some service →
  middlewares self = map probe tags →
  invokeComposeChainRequest self data tr
  = (terminal_ctx service (decodeDubboRequest data)
       (new_ResponseContext (decodeDubboRequest data)),
     tr ++ map Entered tags ++ terminal_calls service (decodeDubboRequest data)
        ++ map Left (rev tags)).
Proof.
  intros Hmatch Hms. unfold invokeComposeChainRequest.
  rewrite Hmatch, (run_chain_probes _ _ _ _ tags []) by (by rewrite app_nil_r).
  simpl app. rewrite dispatch_unfold by (apply (entered_index tags 0); simpl; lia).
  rewrite handleRequest_run. simpl.
  rewrite entered_trace, entered_ctx. simpl. by rewrite <- !app_assoc.
Qed.

(** A request for which the routing table has no descriptor under
    [attachment.path], or for which [methods[methodName]] is undefined
    along the prototype chain of the descriptor's methods, or whose
    descriptor has another group than [attachment.group] ([""] when absent)
    or another version than [attachment.version], is answered
    [SERVICE_NOT_FOUND] with an error that names path, method, group and
    version ([undefined] for an absent path or version); the trace is as it
    was, so no service method ran, and the answer is the same whatever
    middlewares are registered, so none of them ran. *)
Theorem unmatched_request_not_found (self : DubboServer) (data : list Byte.byte)
    (tr : list Event) :
  let request := decodeDubboRequest data in
  (∀ p service,
      Attachment.path (attachment request) = Some p →
      serviceMap self !! p = Some service →
      typeof_undefined (lookup_method (methods service) (methodName request)) = true
      ∨ group service ≠ Some (default "" (Attachment.group (attachment request)))
      ∨ version service ≠ Attachment.version (attachment request)) →
  invokeComposeChainRequest self data tr =
    ({| request := request;
        status := Some SERVICE_NOT_FOUND;
        body := {| res := VNull;
                   err := VError "Error"
                     ("Service not found with "
                      +:+ match Attachment.path (attachment request) with
                          | Some p => p
                          | None => "undefined"
                          end
                      +:+ " and " +:+ methodName request
                      +:+ ", group:"
                      +:+ match Attachment.group (attachment request) with
                          | Some g => g
                          | None => ""
                          end
                      +:+ ", version:"
                      +:+ match Attachment.version (attachment request) with
                          | Some v => v
                          | None => "undefined"
                          end) |} |},
     tr)
  ∧ ∀ ms, invokeComposeChainRequest (with_middlewares self ms) data tr
          = invokeComposeChainRequest self data tr.
Proof.
  intros request Hno. apply matchService_None in Hno.
  assert (∀ ms, matchService (with_middlewares self ms) request = None) as Hno'.
  { intros ms. by rewrite <- Hno. }
  split.
  - open_dispatcher request. rewrite Hno. unfold not_found_message, template.
    by destruct (Attachment.group (attachment request)).
  - intros ms. open_dispatcher request. by rewrite Hno, Hno'.
Qed.

(** C1 on the code: the router reads [methods[methodName]] along the
    prototype chain, so a method name that the descriptor does not define
    but that its methods object inherits (from [Object.prototype], for an
    object literal) is matched when path, group and version agree: the
    chain is run instead of the answer [SERVICE_NOT_FOUND], and with no
    middleware registered the inherited function is applied to the
    request's arguments and its result becomes the body. *)
Theorem inherited_method_name_is_routed (self : DubboServer) (data : list Byte.byte)
    (tr : list Event) (service : IDubboService) (p : string) (member : Member) :
  let request := decodeDubboRequest data in
  let argv := default [] (args request) ++ [VCtx] in
  Attachment.path (attachment request) = Some p →
  serviceMap self !! p = Some service →
  group service = Some (default "" (Attachment.group (attachment request))) →
  version service = Attachment.version (attachment request) →
  lookup_member (own (methods service)) (methodName request) = None →
  lookup_member (inherited (methods service)) (methodName request) = Some member →
  member ≠ MValue VUndefined →
  matchService self request = Some service
  ∧ invokeComposeChainRequest self data tr
    = match run_chain self service request tr with
      | (Normal _, w) => (ctx w, trace w)
      | (Raised e, w) => (set_body_err e (set_status SERVER_ERROR (ctx w)), trace w)
      end
  ∧ (middlewares self = [] →
     ∀ f, member = MFunction f →
       invokeComposeChainRequest self data tr
       = (set_body (after_try request (fst (f argv (set_status OK (new_ResponseContext request)))))
            (snd (f argv (set_status OK (new_ResponseContext request)))),
          tr ++ [Invoked (dubboInterface service) (methodName request) argv])).
Proof.
  intros request argv Hp Hs Hg Hv Hown Hinh Hdef.
  assert (lookup_method (methods service) (methodName request) = Some member) as Hm.
  { unfold lookup_method. by rewrite Hown. }
  assert (matchService self request = Some service) as Hmatch.
  { apply matchService_Some. exists p. rewrite Hm. split_and!; try done.
    destruct member as [f|[]]; done. }
  split_and!.
  - done.
  - open_dispatcher request. by rewrite Hmatch.
  - intros Hms f ->.
    rewrite (dispatch_behind_probes self data tr service []) by done.
    fold request. destruct (terminal_function service request f
                               (new_ResponseContext request) Hm) as [-> ->].
    reflexivity.
Qed.

(** C2, as the code has it: on a matched request [methods[methodName]] is
    defined, and when the descriptor has a property of that name it is that
    property; when it is a function the terminal stage applies it to the
    request's arguments followed by the context and completes normally;
    when the returned value passes the check [body.res] is that value and
    [body.err] is null; when it does not [body.err] is the check's error;
    when the method throws [body.err] is the thrown value.  The stage
    assigns [OK] before the call and no status after it: the status it
    leaves is the one the method left, [OK] when the method leaves the
    status alone.  Behind instrumented middlewares this is the dispatcher's
    answer. *)
Theorem terminal_stage_outcome (self : DubboServer) (request : Request)
    (service : IDubboService) :
  matchService self request = Some service →
  ∃ member p,
    Attachment.path (attachment request) = Some p
    ∧ lookup_method (methods service) (methodName request) = Some member
    ∧ (∀ before m after,
         own (methods service) = before ++ (methodName request, m) :: after →
         Forall (fun km => fst km ≠ methodName request) before →
         member = m)
    ∧ ∀ f, member = MFunction f →
      ∀ (next : M unit) (w : World),
        let argv := default [] (args request) ++ [VCtx] in
        let called := fst (f argv (set_status OK (ctx w))) in
        let left := snd (f argv (set_status OK (ctx w))) in
        ∃ w',
          handleRequest service request next w = (Normal tt, w')
          ∧ trace w' = trace w ++ [Invoked (dubboInterface service) (methodName request) argv]
          ∧ status (ctx w') = status left
          ∧ (leaves_status f → status (ctx w') = Some OK)
          ∧ (∀ v, called = Normal v →
               (checkRetValHessian v = true →
                  res (body (ctx w')) = v ∧ err (body (ctx w')) = VNull)
               ∧ (checkRetValHessian v = false →
                    err (body (ctx w'))
                    = VError "Error"
                        (p +:+ "#" +:+ methodName request
                         +:+ " return value not hessian type")))
          ∧ (∀ e, called = Raised e →
               err (body (ctx w')) = e ∧ res (body (ctx w')) = VNull)
          ∧ ∀ data tr tags,
              decodeDubboRequest data = request → middlewares self = map probe tags →
              ctx w = new_ResponseContext request →
              invokeComposeChainRequest self data tr
              = (ctx w',
                 tr ++ map Entered tags
                    ++ [Invoked (dubboInterface service) (methodName request) argv]
                    ++ map Left (rev tags)).
Proof.
  intros Hmatch.
  pose proof Hmatch as (p & Hp & Hs & Hdef & Hg & Hv)%matchService_Some.
  destruct (matchService_member _ _ _ Hmatch) as [member Hm].
  exists member, p. split_and!; [done..| |].
  - intros before m after Hown Hbefore.
    rewrite (lookup_method_own _ _ m before after Hown Hbefore) in Hm. congruence.
  - intros f -> next w argv called left.
    destruct (terminal_function service request f (ctx w) Hm) as [Hctx Hcalls].
    eexists. split; [apply handleRequest_run|]. cbn [ctx trace].
    rewrite Hctx, Hcalls. fold argv called left.
    split_and!; try done.
    + intros Hleaves. simpl. unfold left. by rewrite Hleaves.
    + intros v Hcalled. rewrite Hcalled. simpl. rewrite Hp. simpl.
      destruct (checkRetValHessian v) eqn:Hcheck; simpl; split_and!; done.
    + intros e Hcalled. by rewrite Hcalled.
    + intros data tr tags Hdata Hms Hfresh.
      rewrite <- Hdata in Hmatch.
      rewrite (dispatch_behind_probes self data tr service tags Hmatch Hms), Hdata.
      destruct (terminal_function service request f
                  (new_ResponseContext request) Hm) as [-> ->].
      unfold called, left. by rewrite Hfresh.
Qed.

(** C3, as the code has it: when an exception escapes the chain of a
    matched request the answer has status [SERVER_ERROR] and [body.err] is
    the thrown value; what is registered after a stage that throws before
    [next] has no part in the run, and the stages around the throw leave
    no mark after it; and when every registered middleware and the method
    of the request leave a status other than [SERVER_ERROR] in place, an
    answer has status [SERVER_ERROR] only if an exception escaped the
    chain. *)
Theorem escaped_exception_server_error (self : DubboServer) (data : list Byte.byte)
    (tr : list Event) (service : IDubboService) :
  let request := decodeDubboRequest data in
  matchService self request = Some service →
  (∀ e w, run_chain self service request tr = (Raised e, w) →
     ∃ result, invokeComposeChainRequest self data tr = (result, trace w)
               ∧ status result = Some SERVER_ERROR
               ∧ err (body result) = e
               ∧ res (body result) = res (body (ctx w)))
  ∧ (∀ before e rest, middlewares self = before ++ throw_before e :: rest →
       ∀ rest' service',
         run_chain self service request tr
         = run_chain (with_middlewares self (before ++ throw_before e :: rest'))
             service' request tr)
  ∧ (∀ tags e rest, middlewares self = map probe tags ++ throw_before e :: rest →
       ∃ result, invokeComposeChainRequest self data tr = (result, tr ++ map Entered tags)
                 ∧ status result = Some SERVER_ERROR
                 ∧ body result = {| res := VNull; err := e |})
  ∧ (∀ tags e, middlewares self = map probe tags ++ [throw_after e] →
       ∃ result, invokeComposeChainRequest self data tr
                 = (result, tr ++ map Entered tags ++ terminal_calls service request)
                 ∧ status result = Some SERVER_ERROR
                 ∧ err (body result) = e)
  ∧ (Forall (keeps no_server_error) (middlewares self) →
     member_quiet (lookup_method (methods service) (methodName request)) →
     status (fst (invokeComposeChainRequest self data tr)) = Some SERVER_ERROR →
     ∃ e w, run_chain self service request tr = (Raised e, w)).
Proof.
  intros request Hmatch.
  split_and!.
  - intros e w Hrun. open_dispatcher request.
    rewrite Hmatch, Hrun. eexists. split_and!; reflexivity.
  - intros before e rest Hms rest' service'. unfold run_chain, compose.
    rewrite Hms. simpl middlewares. rewrite <- !app_assoc. simpl.
    by rewrite (dispatch_cut before (throw_before e) _
                  (rest' ++ [handleRequest service' request])).
  - intros tags e rest Hms. open_dispatcher request.
    rewrite Hmatch, (run_chain_probes _ _ _ _ tags (throw_before e :: rest)) by done.
    simpl app. rewrite dispatch_unfold by (apply (entered_index tags 0); simpl; lia).
    unfold throw_before, throw. simpl.
    rewrite entered_trace, entered_ctx. simpl.
    eexists. split_and!; reflexivity.
  - intros tags e Hms. open_dispatcher request.
    rewrite Hmatch, (run_chain_probes _ _ _ _ tags [throw_after e]) by done.
    simpl app. rewrite dispatch_unfold by (apply (entered_index tags 0); simpl; lia).
    unfold throw_after, bind.
    rewrite dispatch_unfold by (simpl; lia).
    rewrite handleRequest_run. simpl.
    rewrite entered_trace. simpl. rewrite <- app_assoc.
    eexists. split_and!; reflexivity.
  - intros Hkeep Hquiet Hst. unfold invokeComposeChainRequest in Hst.
    fold request in Hst. rewrite Hmatch in Hst.
    pose proof (run_chain_preserves self service request tr Hkeep Hquiet) as Hinv.
    destruct (run_chain self service request tr) as [[[]|e] w] eqn:Hrun; [|eauto].
    simpl in Hst, Hinv. by destruct Hinv.
Qed.

(** C4, as the code has it.  An unmatched request is answered
    [SERVICE_NOT_FOUND] with [body.err] populated and [body.res] empty:
    the invariant holds.  On a matched request, an exception that escapes
    the chain gives [SERVER_ERROR] with the thrown value in [body.err], and
    otherwise the answer is the context as the chain left it: whatever the
    terminal stage establishes, and every registered middleware hands on,
    holds of the answer.  The terminal stage leaves the status the method
    left, starting from [OK]; a returned value that passes the check is in
    [body.res] with [body.err] empty; a value the check rejects gives a
    populated [body.err]; a thrown value is in [body.err] with [body.res]
    null.  So behind middlewares that hand the context on, with a method
    that leaves the status alone and returns a populated value that passes
    the check or throws a populated value, the invariant holds. *)
Theorem dispatch_result_shape (self : DubboServer) (data : list Byte.byte)
    (tr : list Event) :
  let request := decodeDubboRequest data in
  let result := fst (invokeComposeChainRequest self data tr) in
  match matchService self request with
  | None =>
      status result = Some SERVICE_NOT_FOUND
      ∧ populated (err (body result)) = true
      ∧ populated (res (body result)) = false
      ∧ exactly_one_populated (body result) = true
      ∧ status_assigned result = true
  | Some service =>
      match run_chain self service request tr with
      | (Raised e, w) =>
          status result = Some SERVER_ERROR ∧ err (body result) = e
          ∧ status_assigned result = true
      | (Normal _, w) =>
          result = ctx w
          ∧ ∀ Q : ResponseContext → Prop,
              Forall (hands_on Q) (middlewares self) →
              (∀ c, Q (terminal_ctx service request c)) →
              Q result
      end
      ∧ (∀ f c, lookup_method (methods service) (methodName request) = Some (MFunction f) →
           let argv := default [] (args request) ++ [VCtx] in
           let called := fst (f argv (set_status OK c)) in
           let left := snd (f argv (set_status OK c)) in
           let after := terminal_ctx service request c in
           status after = status left
           ∧ (leaves_status f → status after = Some OK)
           ∧ match called with
             | Normal v =>
                 (checkRetValHessian v = true →
                    res (body after) = v ∧ err (body after) = VNull)
                 ∧ (checkRetValHessian v = false → populated (err (body after)) = true)
             | Raised e => res (body after) = VNull ∧ err (body after) = e
             end)
      ∧ (∀ f, lookup_method (methods service) (methodName request) = Some (MFunction f) →
           leaves_status f →
           (∀ argv c, match fst (f argv c) with
                      | Normal v => checkRetValHessian v = true ∧ populated v = true
                      | Raised e => populated e = true
                      end) →
           Forall (hands_on (fun c => exactly_one_populated (body c) = true
                                     ∧ status_assigned c = true))
             (middlewares self) →
           ∀ w, run_chain self service request tr = (Normal tt, w) →
             exactly_one_populated (body result) = true
             ∧ status_assigned result = true)
  end.
Proof.
  intros request result. subst result. open_dispatcher request.
  destruct (matchService self request) as [service|] eqn:Hmatch; [|done].
  assert (∀ f c,
    lookup_method (methods service) (methodName request) = Some (MFunction f) →
    let argv := default [] (args request) ++ [VCtx] in
    let called := fst (f argv (set_status OK c)) in
    let left := snd (f argv (set_status OK c)) in
    let after := terminal_ctx service request c in
    status after = status left
    ∧ (leaves_status f → status after = Some OK)
    ∧ match called with
      | Normal v =>
          (checkRetValHessian v = true →
             res (body after) = v ∧ err (body after) = VNull)
          ∧ (checkRetValHessian v = false → populated (err (body after)) = true)
      | Raised e => res (body after) = VNull ∧ err (body after) = e
      end) as Hterminal.
  { intros f c Hm argv called left after. subst after.
    destruct (terminal_function service request f c Hm) as [-> _].
    fold argv called left. split_and!.
    - done.
    - intros Hleaves. simpl. unfold left. by rewrite Hleaves.
    - destruct called as [v|e]; simpl; [|done].
      destruct (checkRetValHessian v); simpl; split; done. }
  split_and!.
  - destruct (run_chain self service request tr) as [[[]|e] w] eqn:Hrun; [|done].
    split; [done|]. intros Q Hms HQ. simpl.
    by apply (run_chain_establishes Q self service request tr w).
  - exact Hterminal.
  - intros f Hm Hleaves Hgood Hms w Hrun. rewrite Hrun. simpl.
    apply (run_chain_establishes _ self service request tr w Hms); [|done].
    intros c. destruct (Hterminal f c Hm) as (_ & Hst & Hbody).
    specialize (Hst Hleaves).
    specialize (Hgood (default [] (args request) ++ [VCtx]) (set_status OK c)).
    unfold status_assigned, exactly_one_populated. rewrite Hst.
    destruct (fst (f _ _)) as [v|e].
    + destruct Hgood as [Hcheck Hpop]. destruct Hbody as [Hok _].
      destruct (Hok Hcheck) as [-> ->]. by rewrite Hpop.
    + destruct Hbody as [-> ->]. by rewrite Hgood.
Qed.

(** C5: the chain of a matched request is the registered middlewares, in
    registration order, and then the terminal stage, composed when the
    request arrives, so a middleware added by [use] is in the chain of the
    next request; each stage receives the rest of the chain as its [next];
    stages that leave a mark before and after [next] leave the first
    marks in registration order, then the method is called, then the
    second marks appear in reverse order; and when a stage never calls
    [next], what is registered after it and the terminal stage have no
    part in the run, and no method is called. *)
Theorem onion_chain (self : DubboServer) (data : list Byte.byte) (tr : list Event)
    (service : IDubboService) :
  let request := decodeDubboRequest data in
  let fresh := {| ctx := new_ResponseContext request; index := -1; trace := tr |} in
  let call := Invoked (dubboInterface service) (methodName request)
                (default [] (args request) ++ [VCtx]) in
  matchService self request = Some service →
  invokeComposeChainRequest self data tr =
    match compose (middlewares self ++ [handleRequest service request]) fresh with
    | (Normal _, w) => (ctx w, trace w)
    | (Raised e, w) => (set_body_err e (set_status SERVER_ERROR (ctx w)), trace w)
    end
  ∧ (∀ fn,
       run_chain (snd (use self (Callable fn))) service request tr
       = compose (middlewares self ++ [fn] ++ [handleRequest service request]) fresh)
  ∧ (∀ (m : Middleware) rest i w,
       index w < i → dispatch (m :: rest) i w = m (dispatch rest (i + 1)) (set_index i w))
  ∧ (∀ tags f, middlewares self = map probe tags →
       lookup_method (methods service) (methodName request) = Some (MFunction f) →
       ∃ result,
         invokeComposeChainRequest self data tr
         = (result, tr ++ map Entered tags ++ [call] ++ map Left (rev tags))
         ∧ status result
           = status (snd (f (default [] (args request) ++ [VCtx])
                           (set_status OK (new_ResponseContext request))))
         ∧ (leaves_status f → status result = Some OK))
  ∧ (∀ tags, middlewares self = map probe tags →
       (∀ f, lookup_method (methods service) (methodName request) ≠ Some (MFunction f)) →
       ∃ result,
         invokeComposeChainRequest self data tr
         = (result, tr ++ map Entered tags ++ map Left (rev tags))
         ∧ status result = Some OK)
  ∧ (∀ tags t rest, middlewares self = map probe tags ++ short_circuit t :: rest →
       ∃ result,
         invokeComposeChainRequest self data tr
         = (result, tr ++ map Entered tags ++ [Entered t] ++ map Left (rev tags))
         ∧ result = new_ResponseContext request)
  ∧ (∀ before m rest, middlewares self = before ++ m :: rest → ignores_next m →
       ∀ rest' service',
         run_chain self service request tr
         = run_chain (with_middlewares self (before ++ m :: rest')) service' request tr).
Proof.
  intros request fresh call Hmatch.
  split_and!.
  - open_dispatcher request. by rewrite Hmatch.
  - intros fn. unfold run_chain. simpl. by rewrite <- app_assoc.
  - intros m rest i w Hi. by apply dispatch_unfold.
  - intros tags f Hms Hm.
    rewrite (dispatch_behind_probes self data tr service tags Hmatch Hms). fold request.
    destruct (terminal_function service request f (new_ResponseContext request) Hm)
      as [-> ->].
    eexists. split; [reflexivity|]. split; [done|].
    intros Hleaves. simpl. by rewrite Hleaves.
  - intros tags Hms Hno.
    rewrite (dispatch_behind_probes self data tr service tags Hmatch Hms). fold request.
    destruct (terminal_no_function service request (new_ResponseContext request) Hno)
      as (-> & Hst & _).
    eexists. split; [reflexivity|]. done.
  - intros tags t rest Hms. open_dispatcher request.
    rewrite Hmatch, (run_chain_probes _ _ _ _ tags (short_circuit t :: rest)) by done.
    simpl app. rewrite dispatch_unfold by (apply (entered_index tags 0); simpl; lia).
    unfold short_circuit, mark. simpl.
    rewrite entered_trace, entered_ctx. simpl. rewrite <- !app_assoc.
    eexists. split; reflexivity.
  - intros before m rest Hms Hignore rest' service'. unfold run_chain, compose.
    rewrite Hms. simpl middlewares. rewrite <- !app_assoc. simpl.
    by rewrite (dispatch_cut before m _ (rest' ++ [handleRequest service' request])).
Qed.

End Outcomes.

(** ** Registration *)

Lemma or_default_idem (o : option string) (d : string) :
  or_default (Some (or_default o d)) d = or_default o d.
Proof.
  unfold or_default. destruct o as [s|].
  - destruct (String.eqb s "") eqn:Hs; [|by rewrite Hs].
    by destruct (String.eqb d "").
  - by destruct (String.eqb d "").
Qed.

Lemma normalize_idem (s : IDubboService) : normalize (normalize s) = normalize s.
Proof.
  unfold normalize. cbn [group version dubboInterface methods].
  by rewrite !or_default_idem.
Qed.

Lemma map_normalize_idem (l : list IDubboService) :
  map normalize (map normalize l) = map normalize l.
Proof. rewrite map_map. apply map_ext. intros s. apply normalize_idem. Qed.

(** Entering a list of descriptors in a table: the last one entered under an
    interface is the one found there. *)
Lemma lookup_foldl_insert (l : list IDubboService) (m : gmap string IDubboService)
    (iface : string) :
  foldl (fun m s => <[dubboInterface s := s]> m) m l !! iface =
    match last_declared l iface with
    | Some s => Some s
    | None => m !! iface
    end.
Proof.
  unfold last_declared. induction l as [|a l IH] using rev_ind; [done|].
  rewrite foldl_snoc, filter_app.
  destruct (decide (dubboInterface a = iface)) as [Heq|Hne].
  - rewrite filter_cons_True, filter_nil by done.
    rewrite last_snoc, <- Heq. apply lookup_insert_eq.
  - rewrite filter_cons_False, filter_nil, app_nil_r by done.
    rewrite lookup_insert_ne by done. apply IH.
Qed.

Lemma last_declared_normalize (l : list IDubboService) (iface : string) :
  last_declared (map normalize l) iface = normalize <$> last_declared l iface.
Proof.
  unfold last_declared. induction l as [|a l IH] using rev_ind; [done|].
  rewrite map_app, !filter_app. simpl map.
  destruct (decide (dubboInterface a = iface)) as [Heq|Hne].
  - rewrite !filter_cons_True, !filter_nil by done. by rewrite !last_snoc.
  - rewrite !filter_cons_False, !filter_nil, !app_nil_r by done. apply IH.
Qed.

Lemma routing_table_lookup (declared : list IDubboService) (iface : string) :
  routing_table declared !! iface = normalize <$> last_declared declared iface.
Proof.
  unfold routing_table. rewrite lookup_foldl_insert, last_declared_normalize.
  by destruct (last_declared declared iface).
Qed.

(** Registering the same descriptors again changes nothing in the table. *)
Lemma routing_table_again (declared : list IDubboService) :
  foldl (fun m s => <[dubboInterface s := s]> m) (routing_table declared)
    (map normalize declared)
  = routing_table declared.
Proof.
  apply map_eq. intros iface. rewrite lookup_foldl_insert.
  destruct (last_declared (map normalize declared) iface) as [s|] eqn:Hlast; [|done].
  unfold routing_table. by rewrite lookup_foldl_insert, Hlast.
Qed.

Section Lifecycle.
Context {env : Collaborators}.

(** Once populated the table is the one of the declared descriptors, and
    the descriptor list is the declared one, normalized or not yet. *)
Lemma reachable_table (props : IDubboServerProps) (self : DubboServer) :
  reachable props self →
  let declared := default [] (props_services props) in
  (services self = declared ∨ services self = map normalize declared)
  ∧ (serviceMap self = ∅ ∨ serviceMap self = routing_table declared).
Proof.
  intros Hreach declared.
  induction Hreach as [|self chosen bound now _ [Hsv Hmap]|self fn _ IH].
  - split; by left.
  - destruct bound; [|done]. simpl. split.
    + right. destruct Hsv as [->| ->]; [done|apply map_normalize_idem].
    + right.
      assert (map normalize (services self) = map normalize declared) as ->.
      { destruct Hsv as [->| ->]; [done|apply map_normalize_idem]. }
      destruct Hmap as [->| ->]; [done|apply routing_table_again].
  - by destruct fn.
Qed.

(** Every descriptor in the table of a server carries a group and a
    version. *)
Lemma reachable_normalized (props : IDubboServerProps) (self : DubboServer)
    (iface : string) (service : IDubboService) :
  reachable props self →
  serviceMap self !! iface = Some service →
  ∃ declared_as,
    last_declared (default [] (props_services props)) iface = Some declared_as
    ∧ service = normalize declared_as.
Proof.
  intros Hreach Hlook.
  destruct (reachable_table props self Hreach) as [_ [Hmap|Hmap]];
    rewrite Hmap in Hlook; [done|].
  rewrite routing_table_lookup in Hlook.
  destruct (last_declared _ iface) as [d|]; [|done].
  exists d. split; [done|]. by injection Hlook.
Qed.

End Lifecycle.

(** ** The routing table, [use] and the registry *)

Section Table.
Context {env : Collaborators}.

(** C6, as the code has it: the table is empty when the constructor
    returns and is filled by the registration that each successful bind of
    the listener runs; it then holds, under each interface, the last
    descriptor declared for it, with an absent (or empty) group replaced
    by [""] and an absent (or empty) version by ["0.0.0"]; a further bind,
    failed or successful, and [use] leave the table as it is, and the
    dispatcher returns no server; the router compares the request with
    the defaulted group and version. *)
Theorem routing_table_registration (props : IDubboServerProps) (self : DubboServer) :
  reachable props self →
  let declared := default [] (props_services props) in
  serviceMap (new_DubboServer props) = ∅
  ∧ (serviceMap self = ∅
     ∨ ∀ iface, serviceMap self !! iface = normalize <$> last_declared declared iface)
  ∧ (∀ chosen now iface,
       serviceMap (fst (listen self chosen true now)) !! iface
       = normalize <$> last_declared declared iface)
  ∧ (∀ chosen now, serviceMap (fst (listen self chosen false now)) = serviceMap self)
  ∧ (∀ fn, serviceMap (snd (use self fn)) = serviceMap self)
  ∧ (∀ s, group s = None → version s = None →
       group (normalize s) = Some "" ∧ version (normalize s) = Some "0.0.0")
  ∧ (∀ s g v, group s = Some g → g ≠ "" → version s = Some v → v ≠ "" →
       group (normalize s) = Some g ∧ version (normalize s) = Some v)
  ∧ (∀ request p service,
       Attachment.path (attachment request) = Some p →
       serviceMap self !! p = Some service →
       ∃ d, last_declared declared p = Some d
            ∧ service = normalize d
            ∧ (matchService self request = Some service ↔
               typeof_undefined (lookup_method (methods d) (methodName request)) = false
               ∧ default "" (Attachment.group (attachment request))
                 = or_default (group d) ""
               ∧ Attachment.version (attachment request)
                 = Some (or_default (version d) "0.0.0"))).
Proof.
  intros Hreach declared.
  destruct (reachable_table props self Hreach) as [Hsv Hmap]. fold declared in Hsv, Hmap.
  split_and!.
  - done.
  - destruct Hmap as [->| ->]; [by left|right]. intros iface. apply routing_table_lookup.
  - intros chosen now iface.
    destruct (reachable_table props _ (reach_listen props self chosen true now Hreach))
      as [_ [Hm|Hm]]; fold declared in Hm; rewrite Hm.
    + simpl in Hm.
      assert (map normalize (services self) = map normalize declared) as Hl.
      { destruct Hsv as [->| ->]; [done|apply map_normalize_idem]. }
      rewrite Hl in Hm.
      assert (routing_table declared = ∅) as Hempty.
      { destruct Hmap as [Hmap|Hmap]; rewrite Hmap in Hm; [done|].
        by rewrite routing_table_again in Hm. }
      by rewrite <- routing_table_lookup, Hempty.
    + apply routing_table_lookup.
  - done.
  - by intros [fn|v].
  - intros s Hg Hv. unfold normalize. simpl. by rewrite Hg, Hv.
  - intros s g v Hg Hgne Hv Hvne. unfold normalize, or_default. simpl. rewrite Hg, Hv.
    apply String.eqb_neq in Hgne, Hvne. by rewrite Hgne, Hvne.
  - intros request p service Hp Hs.
    destruct (reachable_normalized props self p service Hreach Hs) as (d & Hd & ->).
    exists d. split_and!; [done..|].
    rewrite matchService_Some. split.
    + intros (q & Hq & _ & Hm & Hg & Hv). simpl in Hm, Hg, Hv.
      split_and!; [done|congruence..].
    + intros (Hm & Hg & Hv). exists p. simpl. split_and!; [done..|congruence|congruence].
Qed.

(** C7: [use] on something that is not a function throws a [TypeError]
    and leaves the server, so the list of middlewares, as it was; on a
    function it returns with the function appended to the list, and
    nothing else of the server changed. *)
Theorem use_appends_or_rejects (self : DubboServer) :
  (∀ v, use self (NotCallable v)
        = (Raised (VError "TypeError" "middleware must be a function"), self))
  ∧ (∀ fn, ∃ self',
       use self (Callable fn) = (Normal tt, self')
       ∧ middlewares self' = middlewares self ++ [fn]
       ∧ serviceMap self' = serviceMap self
       ∧ services self' = services self
       ∧ port self' = port self
       ∧ registry self' = registry self).
Proof. split; [done|]. intros fn. eexists. split_and!; reflexivity. Qed.

(** C10: a request without [attachment.group] is routed like the same
    request with group [""], so it matches a descriptor whose group was
    defaulted; a request without [attachment.version] gets no default,
    and since every descriptor in the table has a version it matches
    none: the answer is [SERVICE_NOT_FOUND] and no method runs. *)
Theorem absent_group_defaults_absent_version_never_matches
    (props : IDubboServerProps) (self : DubboServer) (data : list Byte.byte)
    (tr : list Event) :
  reachable props self →
  let request := decodeDubboRequest data in
  (Attachment.group (attachment request) = None →
     matchService self request
     = matchService self
         {| methodName := methodName request; args := args request;
            attachment := Attachment.mk (Attachment.path (attachment request)) (Some "")
                            (Attachment.version (attachment request)) |})
  ∧ (Attachment.group (attachment request) = None →
     ∀ p d, Attachment.path (attachment request) = Some p →
            serviceMap self !! p = Some (normalize d) →
            group d = None →
            typeof_undefined (lookup_method (methods d) (methodName request)) = false →
            Attachment.version (attachment request) = Some (or_default (version d) "0.0.0") →
            matchService self request = Some (normalize d))
  ∧ (Attachment.version (attachment request) = None →
     matchService self request = None
     ∧ status (fst (invokeComposeChainRequest self data tr)) = Some SERVICE_NOT_FOUND
     ∧ snd (invokeComposeChainRequest self data tr) = tr).
Proof.
  intros Hreach request. split_and!.
  - intros Hg. unfold matchService. simpl. by rewrite Hg.
  - intros Hg p d Hp Hs Hgd Hm Hv. apply matchService_Some. exists p.
    simpl. rewrite Hg, Hgd, Hv. done.
  - intros Hv.
    assert (matchService self request = None) as Hnone.
    { apply matchService_None. intros p service Hp Hs.
      destruct (reachable_normalized props self p service Hreach Hs) as (d & _ & ->).
      right; right. by rewrite Hv. }
    split; [done|]. open_dispatcher request. by rewrite Hnone.
Qed.

End Table.

(** ** Provider URLs *)

Lemma decode_escapeChar (c : ascii) (rest : string) :
  decodeURIComponent (escapeChar c +:+ rest) = String c (decodeURIComponent rest).
Proof. destruct c as [[] [] [] [] [] [] [] []]; reflexivity. Qed.

(** Percent-encoding loses nothing: the encoded text reads back as the
    original. *)
Lemma decode_encodeURIComponent (s : string) :
  decodeURIComponent (encodeURIComponent s) = s.
Proof.
  induction s as [|c t IH]; [done|].
  simpl encodeURIComponent. by rewrite decode_escapeChar, IH.
Qed.

Section Publisher.
Context {env : Collaborators}.



End Publisher.

(** ** Connections *)

Section Frames.
Context {env : Collaborators}.

Lemma onFrame_heartbeat (self : DubboServer) (c : Connection) (now : Z)
    (data : list Byte.byte) :
  isHeartBeat data = true →
  onFrame self c (now, data) =
    {| heartbeat := HeartBeat_emit now (heartbeat c); written := written c;
       dispatched := dispatched c; served := served c |}.
Proof. intros H. unfold onFrame. by rewrite H. Qed.

Lemma onFrame_request (self : DubboServer) (c : Connection) (now : Z)
    (data : list Byte.byte) :
  isHeartBeat data = false →
  onFrame self c (now, data) =
    {| heartbeat := setWriteTimestamp now (heartbeat c);
       written := written c
                  ++ [encodeResponse (fst (invokeComposeChainRequest self data (served c)))];
       dispatched := dispatched c ++ [data];
       served := snd (invokeComposeChainRequest self data (served c)) |}.
Proof.
  intros H. unfold onFrame. rewrite H.
  by destruct (invokeComposeChainRequest self data (served c)).
Qed.

(** On a stream of frames the dispatcher sees the frames that are not
    heartbeats, in order, and one frame is written for each of them. *)
Lemma onFrames_dispatched (self : DubboServer) (frames : list (Z * list Byte.byte))
    (c : Connection) :
  dispatched (onFrames self c frames)
  = dispatched c ++ filter (fun d => isHeartBeat d = false) (map snd frames)
  ∧ length (written (onFrames self c frames))
    = (length (written c)
       + length (filter (fun d => isHeartBeat d = false) (map snd frames)))%nat.
Proof.
  unfold onFrames. revert c.
  induction frames as [|[now data] frames IH]; intros c.
  - simpl. rewrite app_nil_r. split; [done|lia].
  - change (foldl (onFrame self) c ((now, data) :: frames))
      with (foldl (onFrame self) (onFrame self c (now, data)) frames).
    destruct (IH (onFrame self c (now, data))) as [-> ->].
    change (map snd ((now, data) :: frames)) with (data :: map snd frames).
    destruct (isHeartBeat data) eqn:Hhb.
    + rewrite onFrame_heartbeat by done. simpl.
      rewrite filter_cons_False by (by rewrite Hhb). done.
    + rewrite onFrame_request by done. simpl.
      rewrite filter_cons_True by done.
      rewrite <- app_assoc, length_app. simpl. split; [done|lia].
Qed.

(** C9: a frame that the heartbeat predicate recognizes is not handed to
    the dispatcher, nothing is written to the socket for it and no
    request is served, and the session's timestamp becomes the time of
    the frame; a frame that it does not recognize is dispatched and its
    encoded answer is written; so on a stream of frames the dispatcher
    sees exactly the frames that are not heartbeats. *)
Theorem heartbeat_frames_not_dispatched (self : DubboServer) (c : Connection) (now : Z)
    (data : list Byte.byte) (frames : list (Z * list Byte.byte)) :
  (isHeartBeat data = true →
     let c' := onFrame self c (now, data) in
     dispatched c' = dispatched c
     ∧ written c' = written c
     ∧ served c' = served c
     ∧ lastTimestamp (heartbeat c') = now
     ∧ signals (heartbeat c') = S (signals (heartbeat c)))
  ∧ (isHeartBeat data = false →
     let c' := onFrame self c (now, data) in
     dispatched c' = dispatched c ++ [data]
     ∧ written c'
       = written c
         ++ [encodeResponse (fst (invokeComposeChainRequest self data (served c)))]
     ∧ signals (heartbeat c') = signals (heartbeat c))
  ∧ dispatched (onFrames self c frames)
    = dispatched c ++ filter (fun d => isHeartBeat d = false) (map snd frames)
  ∧ length (written (onFrames self c frames))
    = (length (written c)
       + length (filter (fun d => isHeartBeat d = false) (map snd frames)))%nat.
Proof.
  split_and!.
  - intros H. by rewrite onFrame_heartbeat.
  - intros H. by rewrite onFrame_request.
  - apply onFrames_dispatched.
  - apply onFrames_dispatched.
Qed.

End Frames.

(** ** The example server *)

Lemma demo_table :
  serviceMap demo_server = <["com.foo.Bar" := normalize fooBar]> ∅.
Proof. reflexivity. Qed.

Lemma demo_reachable : reachable demo_props demo_server.
Proof. apply (reach_listen demo_props (new_DubboServer demo_props)), reach_new. Qed.

Lemma hello_leaves_status : leaves_status hello.
Proof. intros argv c. unfold hello. by destruct argv as [|[] ?]. Qed.

(** The scenario of the spec with the version the descriptor was given by
    default: [status = OK], [body.result = "hi world"]. *)
Example hello_world :
  invokeComposeChainRequest demo_server [Byte.x01] []
  = ({| request := demo_request "hello" None (Some "0.0.0");
        status := Some OK;
        body := {| res := VStr "hi world"; err := VNull |} |},
     [Invoked "com.foo.Bar" "hello" [VStr "world"; VCtx]]).
Proof. vm_compute. reflexivity. Qed.

(** The scenario of the spec with [attachment.group = "v2"]. *)
Example hello_v2 :
  status (fst (invokeComposeChainRequest demo_server [Byte.x02] []))
  = Some SERVICE_NOT_FOUND.
Proof. vm_compute. reflexivity. Qed.

Example demo_url :
  decodeURIComponent (buildUrl demo_server (normalize fooBar) 1600000000000)
  = "dubbo://10.0.0.7:20880/com.foo.Bar?group=&version=0.0.0&method=hello%2Copaque%2Cfailing%2Cdenying&side=provider&pid=4242&generic=false&protocal=dubbo&dynamic=true&category=providers&anyhost=true&timestamp=1600000000000".
Proof. vm_compute. reflexivity. Qed.

(** A name that only [Object.prototype] has, and that holds no function, is
    matched as well: nothing is called and the failed application is the
    error of an answer with status [OK]. *)
Example proto_is_matched :
  matchService demo_server (demo_decode [Byte.x09]) = Some (normalize fooBar)
  ∧ invokeComposeChainRequest demo_server [Byte.x09] []
    = ({| request := demo_request "__proto__" None (Some "0.0.0");
          status := Some OK;
          body := {| res := VNull;
                     err := VError "TypeError" "method.apply is not a function" |} |},
       []).
Proof. split; vm_compute; reflexivity. Qed.

(** ** The theorems on the example server *)

Lemma unmatched_request_not_found_witness :
  (∀ p service,
      Attachment.path (attachment (demo_decode [Byte.x06])) = Some p →
      serviceMap demo_server !! p = Some service →
      typeof_undefined
        (lookup_method (methods service) (methodName (demo_decode [Byte.x06]))) = true
      ∨ group service
        ≠ Some (default "" (Attachment.group (attachment (demo_decode [Byte.x06]))))
      ∨ version service ≠ Attachment.version (attachment (demo_decode [Byte.x06])))
  ∧ invokeComposeChainRequest demo_server [Byte.x06] []
    = ({| request := demo_request "missing" None (Some "0.0.0");
          status := Some SERVICE_NOT_FOUND;
          body := {| res := VNull;
                     err := VError "Error"
                       "Service not found with com.foo.Bar and missing, group:, version:0.0.0"
                  |} |},
       []).
Proof.
  assert (∀ p service,
      Attachment.path (attachment (demo_decode [Byte.x06])) = Some p →
      serviceMap demo_server !! p = Some service →
      typeof_undefined
        (lookup_method (methods service) (methodName (demo_decode [Byte.x06]))) = true
      ∨ group service
        ≠ Some (default "" (Attachment.group (attachment (demo_decode [Byte.x06]))))
      ∨ version service ≠ Attachment.version (attachment (demo_decode [Byte.x06])))
    as Hyp.
  { intros p service Hp Hs. simpl in Hp. injection Hp as <-.
    rewrite demo_table, lookup_insert_eq in Hs. injection Hs as <-.
    left. reflexivity. }
  split; [exact Hyp|].
  destruct (unmatched_request_not_found (env := demo_env) demo_server [Byte.x06] [] Hyp)
    as [Heq _].
  rewrite Heq. reflexivity.
Defined.

Lemma inherited_method_name_is_routed_witness :
  lookup_member (own (methods (normalize fooBar))) "toString" = None
  ∧ matchService demo_server (demo_decode [Byte.x08]) = Some (normalize fooBar)
  ∧ invokeComposeChainRequest demo_server [Byte.x08] []
    = ({| request := demo_request "toString" None (Some "0.0.0");
          status := Some OK;
          body := {| res := VStr "[object Object]"; err := VNull |} |},
       [Invoked "com.foo.Bar" "toString" [VStr "world"; VCtx]]).
Proof.
  destruct (inherited_method_name_is_routed (env := demo_env) demo_server [Byte.x08] []
              (normalize fooBar) "com.foo.Bar" (MFunction Object_toString)
              eq_refl eq_refl eq_refl eq_refl eq_refl eq_refl ltac:(discriminate))
    as (Hmatch & _ & Hrun).
  split; [reflexivity|]. split; [exact Hmatch|].
  rewrite (Hrun eq_refl Object_toString eq_refl). reflexivity.
Defined.

Lemma terminal_stage_outcome_witness :
  matchService demo_server (demo_request "failing" None (Some "0.0.0"))
  = Some (normalize fooBar)
  ∧ lookup_method (methods (normalize fooBar)) "failing" = Some (MFunction failing)
  ∧ status (fst (invokeComposeChainRequest demo_server [Byte.x05] [])) = Some OK
  ∧ err (body (fst (invokeComposeChainRequest demo_server [Byte.x05] [])))
    = VError "Error" "boom".
Proof.
  assert (matchService demo_server (demo_request "failing" None (Some "0.0.0"))
          = Some (normalize fooBar)) as Hyp.
  { vm_compute. reflexivity. }
  split; [exact Hyp|].
  destruct (terminal_stage_outcome (env := demo_env) demo_server
              (demo_request "failing" None (Some "0.0.0")) (normalize fooBar) Hyp)
    as (member & p & _ & Hm & Hpin & Hrun).
  assert (member = MFunction failing) as ->.
  { apply (Hpin [("hello", MFunction hello); ("opaque", MFunction opaque)]
                (MFunction failing) [("denying", MFunction denying)] eq_refl).
    by repeat constructor. }
  split; [exact Hm|].
  destruct (Hrun failing eq_refl (ret tt)
              {| ctx := new_ResponseContext (demo_request "failing" None (Some "0.0.0"));
                 index := 0; trace := [] |})
    as (w' & _ & _ & _ & Hok & _ & Hraised & Hanswer).
  rewrite (Hanswer [Byte.x05] [] [] eq_refl eq_refl eq_refl). simpl fst.
  split; [apply Hok; by intros argv c|].
  by destruct (Hraised (VError "Error" "boom") eq_refl).
Defined.

(** C2 fails as the spec words it: a method that assigns
    [ctx.status = SERVER_ERROR] and throws has its error captured in
    [body.err] by the terminal stage, which completes, and the answer has
    status [SERVER_ERROR] with no middleware registered. *)
Lemma status_assigned_by_method :
  matchService demo_server (demo_decode [Byte.x07]) = Some (normalize fooBar)
  ∧ middlewares demo_server = []
  ∧ fst (run_chain demo_server (normalize fooBar) (demo_decode [Byte.x07]) []) = Normal tt
  ∧ err (body (fst (invokeComposeChainRequest demo_server [Byte.x07] [])))
    = VError "Error" "denied"
  ∧ status (fst (invokeComposeChainRequest demo_server [Byte.x07] []))
    = Some SERVER_ERROR.
Proof. split_and!; vm_compute; reflexivity. Qed.

Lemma escaped_exception_server_error_witness :
  matchService demo_probed (demo_decode [Byte.x01]) = Some (normalize fooBar)
  ∧ Forall (keeps no_server_error) (middlewares demo_probed)
  ∧ member_quiet (lookup_method (methods (normalize fooBar))
                    (methodName (demo_decode [Byte.x01])))
  ∧ status (fst (invokeComposeChainRequest demo_probed [Byte.x01] [])) ≠ Some SERVER_ERROR.
Proof.
  assert (matchService demo_probed (demo_decode [Byte.x01]) = Some (normalize fooBar))
    as Hyp.
  { vm_compute. reflexivity. }
  assert (Forall (keeps no_server_error) (middlewares demo_probed)) as Hkeep.
  { apply Forall_cons. split; [apply probe_keeps|].
    apply Forall_cons. split; [apply probe_keeps|]. apply Forall_nil_2. }
  assert (member_quiet (lookup_method (methods (normalize fooBar))
                          (methodName (demo_decode [Byte.x01])))) as Hquiet.
  { intros f Hf. simpl in Hf. injection Hf as <-. intros argv c Hc.
    by rewrite hello_leaves_status. }
  split; [exact Hyp|]. split; [exact Hkeep|]. split; [exact Hquiet|].
  destruct (escaped_exception_server_error (env := demo_env) demo_probed [Byte.x01] []
              (normalize fooBar) Hyp) as (_ & _ & _ & _ & Honly).
  intros Hst. destruct (Honly Hkeep Hquiet Hst) as (e & w & Hrun).
  vm_compute in Hrun. discriminate Hrun.
Defined.

(** C3 fails as the spec words it: after [use] of a middleware that assigns
    [SERVER_ERROR] to the context once [next] has returned, a matched
    request is answered with that status although the chain completed and
    no exception escaped. *)
Lemma server_error_without_escaped_exception :
  matchService demo_forced (demo_decode [Byte.x01]) = Some (normalize fooBar)
  ∧ status (fst (invokeComposeChainRequest demo_forced [Byte.x01] []))
    = Some SERVER_ERROR
  ∧ fst (run_chain demo_forced (normalize fooBar) (demo_decode [Byte.x01]) []) = Normal tt
  ∧ ¬ ∃ e w, run_chain demo_forced (normalize fooBar) (demo_decode [Byte.x01]) []
             = (Raised e, w).
Proof.
  split_and!; [vm_compute; reflexivity..|].
  intros (e & w & Hrun). vm_compute in Hrun. discriminate Hrun.
Qed.

Lemma dispatch_result_shape_witness :
  matchService demo_probed (demo_decode [Byte.x01]) = Some (normalize fooBar)
  ∧ exactly_one_populated (body (fst (invokeComposeChainRequest demo_probed [Byte.x01] [])))
    = true
  ∧ status_assigned (fst (invokeComposeChainRequest demo_probed [Byte.x01] [])) = true.
Proof.
  assert (matchService demo_probed (decodeDubboRequest [Byte.x01])
          = Some (normalize fooBar)) as Hmatch.
  { vm_compute. reflexivity. }
  split; [exact Hmatch|].
  pose proof (dispatch_result_shape (env := demo_env) demo_probed [Byte.x01] []) as H.
  cbv zeta in H. rewrite Hmatch in H. destruct H as (_ & _ & Hinv).
  apply (Hinv hello eq_refl hello_leaves_status) with
    (w := snd (run_chain demo_probed (normalize fooBar) (demo_decode [Byte.x01]) [])).
  - intros argv c. unfold hello. by destruct argv as [|[] ?].
  - apply Forall_cons. split; [apply probe_hands_on|].
    apply Forall_cons. split; [apply probe_hands_on|]. apply Forall_nil_2.
  - vm_compute. reflexivity.
Defined.

(** C4 fails as the spec words it: when the check rejects the returned
    value the answer has both [body.res] and [body.err] populated; when a
    middleware returns without calling [next] the status is still unset and
    neither field is populated. *)
Lemma both_or_neither_populated :
  (status (fst (invokeComposeChainRequest demo_server [Byte.x04] [])) = Some OK
   ∧ populated (res (body (fst (invokeComposeChainRequest demo_server [Byte.x04] [])))) = true
   ∧ populated (err (body (fst (invokeComposeChainRequest demo_server [Byte.x04] [])))) = true
   ∧ exactly_one_populated (body (fst (invokeComposeChainRequest demo_server [Byte.x04] [])))
     = false)
  ∧ (matchService demo_short (demo_decode [Byte.x01]) = Some (normalize fooBar)
     ∧ status_assigned (fst (invokeComposeChainRequest demo_short [Byte.x01] [])) = false
     ∧ exactly_one_populated (body (fst (invokeComposeChainRequest demo_short [Byte.x01] [])))
       = false).
Proof. vm_compute. split_and!; reflexivity. Qed.

Lemma onion_chain_witness :
  matchService demo_probed (demo_decode [Byte.x01]) = Some (normalize fooBar)
  ∧ snd (invokeComposeChainRequest demo_probed [Byte.x01] [])
    = [Entered 1%nat; Entered 2%nat;
       Invoked "com.foo.Bar" "hello" [VStr "world"; VCtx];
       Left 2%nat; Left 1%nat]
  ∧ status (fst (invokeComposeChainRequest demo_probed [Byte.x01] [])) = Some OK.
Proof.
  assert (matchService demo_probed (demo_decode [Byte.x01]) = Some (normalize fooBar))
    as Hyp.
  { vm_compute. reflexivity. }
  split; [exact Hyp|].
  destruct (onion_chain (env := demo_env) demo_probed [Byte.x01] []
              (normalize fooBar) Hyp) as (_ & _ & _ & Hprobes & _).
  destruct (Hprobes [1; 2]%nat hello eq_refl eq_refl) as (result & Heq & _ & Hok).
  rewrite Heq. split; [reflexivity|]. exact (Hok hello_leaves_status).
Defined.

Lemma routing_table_registration_witness :
  reachable demo_props demo_server
  ∧ serviceMap demo_server !! "com.foo.Bar" = Some (normalize fooBar)
  ∧ group (normalize fooBar) = Some ""
  ∧ version (normalize fooBar) = Some "0.0.0".
Proof.
  split; [exact demo_reachable|].
  destruct (routing_table_registration (env := demo_env) demo_props demo_server
              demo_reachable) as (_ & _ & _ & _ & _ & Hdefault & _).
  destruct (Hdefault fooBar eq_refl eq_refl) as [Hg Hv].
  split; [reflexivity|]. split; [exact Hg|exact Hv].
Defined.

(** C6 fails as the spec words it: the server that the constructor returns
    has nothing in its table under the interface of the descriptor it was
    given; the descriptor is there once the listener is bound. *)
Lemma table_empty_after_constructor :
  props_services demo_props = Some [fooBar]
  ∧ serviceMap (new_DubboServer demo_props) !! dubboInterface fooBar = None
  ∧ matchService (new_DubboServer demo_props) (demo_decode [Byte.x01]) = None
  ∧ serviceMap demo_server !! dubboInterface fooBar = Some (normalize fooBar)
  ∧ matchService demo_server (demo_decode [Byte.x01]) = Some (normalize fooBar).
Proof. split_and!; vm_compute; reflexivity. Qed.

Lemma heartbeat_frames_not_dispatched_witness :
  isHeartBeat [Byte.xe2] = true
  ∧ isHeartBeat [Byte.x01] = false
  ∧ dispatched (onFrame demo_server (handleSocketRequest 0) (7, [Byte.xe2])) = []
  ∧ written (onFrame demo_server (handleSocketRequest 0) (7, [Byte.xe2])) = []
  ∧ lastTimestamp (heartbeat (onFrame demo_server (handleSocketRequest 0) (7, [Byte.xe2])))
    = 7
  ∧ dispatched (onFrame demo_server (handleSocketRequest 0) (9, [Byte.x01])) = [[Byte.x01]].
Proof.
  destruct (heartbeat_frames_not_dispatched (env := demo_env) demo_server
              (handleSocketRequest 0) 7 [Byte.xe2] []) as (Hhb & _ & _ & _).
  destruct (heartbeat_frames_not_dispatched (env := demo_env) demo_server
              (handleSocketRequest 0) 9 [Byte.x01] []) as (_ & Hreq & _ & _).
  destruct (Hhb eq_refl) as (Hd & Hw & _ & Ht & _).
  destruct (Hreq eq_refl) as (Hd' & _).
  split; [reflexivity|]. split; [reflexivity|].
  split; [exact Hd|]. split; [exact Hw|]. split; [exact Ht|exact Hd'].
Defined.

Lemma absent_group_defaults_absent_version_never_matches_witness :
  reachable demo_props demo_server
  ∧ Attachment.version (attachment (demo_decode [Byte.x03])) = None
  ∧ matchService demo_server (demo_decode [Byte.x03]) = None
  ∧ status (fst (invokeComposeChainRequest demo_server [Byte.x03] []))
    = Some SERVICE_NOT_FOUND
  ∧ matchService demo_server (demo_decode [Byte.x01]) = Some (normalize fooBar).
Proof.
  split; [exact demo_reachable|]. split; [reflexivity|].
  destruct (absent_group_defaults_absent_version_never_matches (env := demo_env)
              demo_props demo_server [Byte.x03] [] demo_reachable) as (_ & _ & Hversion).
  destruct (Hversion eq_refl) as (Hnone & Hst & _).
  split; [exact Hnone|]. split; [exact Hst|].
  destruct (absent_group_defaults_absent_version_never_matches (env := demo_env)
              demo_props demo_server [Byte.x01] [] demo_reachable) as (_ & Hgroup & _).
  apply (Hgroup eq_refl "com.foo.Bar" fooBar); reflexivity.
Defined.

(** * Further properties of the code *)

(** ** Registration *)

Lemma foldl_insert_again (l : list IDubboService) (m : gmap string IDubboService) :
  foldl (fun m s => <[dubboInterface s := s]> m)
    (foldl (fun m s => <[dubboInterface s := s]> m) m l) l
  = foldl (fun m s => <[dubboInterface s := s]> m) m l.
Proof.
  apply map_eq. intros iface. rewrite !lookup_foldl_insert.
  by destruct (last_declared l iface).
Qed.

Lemma last_declared_Some (l : list IDubboService) (iface : string) (s : IDubboService) :
  last_declared l iface = Some s → s ∈ l ∧ dubboInterface s = iface.
Proof.
  unfold last_declared. intros Hlast. apply last_Some_elem_of in Hlast.
  by apply list_elem_of_filter in Hlast as [? ?].
Qed.

Lemma last_declared_None (l : list IDubboService) (iface : string) :
  last_declared l iface = None ↔ ∀ s, s ∈ l → dubboInterface s ≠ iface.
Proof.
  unfold last_declared. rewrite last_None. split.
  - intros Hnil s Hs Heq.
    assert (s ∈ filter (fun s => dubboInterface s = iface) l) as Hin
      by (by apply list_elem_of_filter).
    rewrite Hnil in Hin. by apply not_elem_of_nil in Hin.
  - intros Hall. destruct (filter _ l) as [|s t] eqn:Hf; [done|].
    assert (s ∈ filter (fun s => dubboInterface s = iface) l) as Hin
      by (rewrite Hf; apply list_elem_of_here).
    apply list_elem_of_filter in Hin as [Heq Hs]. by destruct (Hall s Hs).
Qed.

Lemma or_default_version_nonempty (o : option string) : or_default o "0.0.0" ≠ "".
Proof.
  unfold or_default. destruct o as [s|]; [|done].
  destruct (String.eqb s "") eqn:Hs; [done|]. by apply String.eqb_neq.
Qed.

Section MoreRegistration.
Context {env : Collaborators}.

(** Registration is idempotent: registering again, at any time, leaves the
    server as the first registration left it, and a second registration at
    the same time publishes the same batch. *)
Theorem registerServices_idempotent (self : DubboServer) (now now' : Z) :
  fst (registerServices (fst (registerServices self now)) now')
  = fst (registerServices self now)
  ∧ snd (registerServices (fst (registerServices self now)) now)
    = snd (registerServices self now).
Proof.
  unfold registerServices. cbn [fst snd port registry services serviceMap middlewares].
  rewrite map_normalize_idem, foldl_insert_again. done.
Qed.

(** After a registration the table has an entry under an interface exactly
    when it had one before or a descriptor of the server declares that
    interface; the entry of a declared interface is the last descriptor
    declared for it, normalized; other entries are as they were. *)
Theorem registerServices_table (self : DubboServer) (now : Z) (iface : string) :
  let self' := fst (registerServices self now) in
  (is_Some (serviceMap self' !! iface) ↔
     is_Some (serviceMap self !! iface)
     ∨ ∃ s, s ∈ services self ∧ dubboInterface s = iface)
  ∧ (∀ s, last_declared (services self) iface = Some s →
          serviceMap self' !! iface = Some (normalize s))
  ∧ ((∀ s, s ∈ services self → dubboInterface s ≠ iface) →
     serviceMap self' !! iface = serviceMap self !! iface).
Proof.
  intros self'. subst self'. unfold registerServices. cbn [fst serviceMap].
  rewrite lookup_foldl_insert, last_declared_normalize.
  destruct (last_declared (services self) iface) as [d|] eqn:Hlast; simpl.
  - apply last_declared_Some in Hlast as [Hd Hi]. split_and!.
    + split; [|by eexists]. intros _. right. by exists d.
    + by intros s [= <-].
    + intros Hall. by destruct (Hall d Hd).
  - split_and!; [|done|done]. split; [by left|].
    intros [?|(s & Hs & Hi)]; [done|].
    by destruct (proj1 (last_declared_None _ _) Hlast s Hs).
Qed.

(** The two shapes of a server built from [props]: before the first
    successful bind the descriptors are as declared and the table is empty;
    from then on the descriptors are the declared ones, normalized, in the
    declared order, and the table is the one registration builds. *)
Lemma reachable_state (props : IDubboServerProps) (self : DubboServer) :
  reachable props self →
  let declared := default [] (props_services props) in
  (services self = declared ∧ serviceMap self = ∅)
  ∨ (services self = map normalize declared ∧ serviceMap self = routing_table declared).
Proof.
  intros Hreach declared.
  induction Hreach as [|self chosen bound now _ IH|self fn _ IH].
  - by left.
  - destruct bound; [|done]. right. simpl.
    destruct IH as [[-> ->]|[-> ->]]; [done|].
    split; [apply map_normalize_idem|].
    rewrite map_normalize_idem. apply routing_table_again.
  - by destruct fn.
Qed.

(** On every server built from [props], an entry of the table sits under
    its own interface, is one of the server's descriptors, and carries a
    group and a non-empty version; so a descriptor the router returns has
    the interface the request asked for and is one of the server's own. *)
Theorem reachable_table_entries (props : IDubboServerProps) (self : DubboServer) :
  reachable props self →
  (∀ iface s, serviceMap self !! iface = Some s →
     dubboInterface s = iface
     ∧ s ∈ services self
     ∧ (∃ g, group s = Some g)
     ∧ (∃ v, version s = Some v ∧ v ≠ ""))
  ∧ (∀ request s, matchService self request = Some s →
       Attachment.path (attachment request) = Some (dubboInterface s)
       ∧ s ∈ services self).
Proof.
  intros Hreach.
  assert (∀ iface s, serviceMap self !! iface = Some s →
     dubboInterface s = iface
     ∧ s ∈ services self
     ∧ (∃ g, group s = Some g)
     ∧ (∃ v, version s = Some v ∧ v ≠ "")) as Hentries.
  { intros iface s Hs.
    destruct (reachable_state props self Hreach) as [[_ Hm]|[Hsv Hm]];
      rewrite Hm in Hs; [done|].
    rewrite routing_table_lookup in Hs.
    destruct (last_declared _ iface) as [d|] eqn:Hlast; [|done].
    injection Hs as <-. apply last_declared_Some in Hlast as [Hd Hi].
    split_and!.
    - done.
    - rewrite Hsv. apply list_elem_of_fmap. by exists d.
    - by eexists.
    - eexists. split; [done|]. apply or_default_version_nonempty. }
  split; [exact Hentries|].
  intros request s (p & Hp & Hs & _)%matchService_Some.
  destruct (Hentries p s Hs) as (<- & Hin & _). done.
Qed.

(** The defaulting of the version is by [||]: a descriptor declared with
    the empty version is registered under ["0.0.0"] like one declared with
    none, and since no registered version is empty, a request whose
    [attachment.version] is the empty string matches nothing. *)
Theorem empty_version_never_matches (props : IDubboServerProps) (self : DubboServer)
    (data : list Byte.byte) (tr : list Event) :
  reachable props self →
  (∀ d, version d = Some "" → version (normalize d) = Some "0.0.0")
  ∧ (Attachment.version (attachment (decodeDubboRequest data)) = Some "" →
     matchService self (decodeDubboRequest data) = None
     ∧ status (fst (invokeComposeChainRequest self data tr)) = Some SERVICE_NOT_FOUND
     ∧ snd (invokeComposeChainRequest self data tr) = tr).
Proof.
  intros Hreach. split.
  - intros d Hv. unfold normalize. simpl. by rewrite Hv.
  - intros Hv.
    assert (matchService self (decodeDubboRequest data) = None) as Hnone.
    { apply matchService_None. intros p s Hp Hs.
      destruct (proj1 (reachable_table_entries props self Hreach) p s Hs)
        as (_ & _ & _ & v & Hsv & Hne).
      right; right. rewrite Hsv, Hv. by intros [= ->]. }
    split; [done|]. unfold invokeComposeChainRequest. by rewrite Hnone.
Qed.

(** A server constructed without services, or with an empty list of them,
    publishes an empty batch at every successful bind and answers every
    request [SERVICE_NOT_FOUND], whatever was registered with [use]. *)
Theorem no_services_nothing_found (props : IDubboServerProps) (self : DubboServer) :
  default [] (props_services props) = [] →
  reachable props self →
  (∀ chosen now, call_services <$> snd (listen self chosen true now) = Some [])
  ∧ (∀ data tr,
       invokeComposeChainRequest self data tr
       = (set_body_err (VError "Error" (not_found_message (decodeDubboRequest data)))
            (set_status SERVICE_NOT_FOUND (new_ResponseContext (decodeDubboRequest data))),
          tr)).
Proof.
  intros Hnone Hreach.
  pose proof (reachable_state props self Hreach) as Hstate.
  cbv zeta in Hstate. rewrite Hnone in Hstate.
  assert (services self = [] ∧ serviceMap self = ∅) as [Hsv Hm].
  { by destruct Hstate as [[? ?]|[? ?]]. }
  split.
  - intros chosen now. simpl. by rewrite Hsv.
  - intros data tr. unfold invokeComposeChainRequest, matchService. rewrite Hm.
    by destruct (Attachment.path _).
Qed.

End MoreRegistration.

(** ** The dispatcher *)

Section MoreDispatch.
Context {env : Collaborators}.

(** With no middleware registered an unmatched request is answered
    [SERVICE_NOT_FOUND] with the trace as it was; on a matched request the
    chain never raises, so the dispatcher's catch is not entered and the
    answer is the context the terminal stage left: when the matched member
    is a function it was applied once and the status is the one it left,
    [OK] when it leaves the status alone; when the member is no function
    nothing was called and the status is [OK]. *)
Theorem no_middleware_status (self : DubboServer) (data : list Byte.byte)
    (tr : list Event) :
  middlewares self = [] →
  let request := decodeDubboRequest data in
  let argv := default [] (args request) ++ [VCtx] in
  let answer := invokeComposeChainRequest self data tr in
  match matchService self request with
  | None => status (fst answer) = Some SERVICE_NOT_FOUND ∧ snd answer = tr
  | Some service =>
      (∃ w, run_chain self service request tr = (Normal tt, w)
            ∧ answer = (ctx w, trace w))
      ∧ (∀ f, lookup_method (methods service) (methodName request) = Some (MFunction f) →
           snd answer = tr ++ [Invoked (dubboInterface service) (methodName request) argv]
           ∧ status (fst answer)
             = status (snd (f argv (set_status OK (new_ResponseContext request))))
           ∧ (leaves_status f → status (fst answer) = Some OK))
      ∧ ((∀ f, lookup_method (methods service) (methodName request) ≠ Some (MFunction f)) →
         snd answer = tr ∧ status (fst answer) = Some OK)
  end.
Proof.
  intros Hms request argv answer. subst answer.
  destruct (matchService self request) as [service|] eqn:Hmatch.
  - assert (invokeComposeChainRequest self data tr
            = (terminal_ctx service request (new_ResponseContext request),
               tr ++ terminal_calls service request)) as Heq.
    { rewrite (dispatch_behind_probes self data tr service [] Hmatch Hms).
      fold request. simpl. by rewrite app_nil_r. }
    rewrite Heq. split_and!.
    + eexists. split; [by apply run_chain_no_middleware|done].
    + intros f Hm.
      destruct (terminal_function service request f (new_ResponseContext request) Hm)
        as [-> ->].
      fold argv. split_and!; try done. intros Hleaves. simpl. by rewrite Hleaves.
    + intros Hno.
      destruct (terminal_no_function service request (new_ResponseContext request) Hno)
        as (-> & Hst & _).
      by rewrite app_nil_r.
  - open_dispatcher request. by rewrite Hmatch.
Qed.

(** A call of [next] at a position the chain has passed is rejected. *)
Lemma dispatch_rejected (ms : list Middleware) (i : Z) (w : World) :
  i ≤ index w →
  dispatch ms i w = (Raised (VError "Error" "next() called multiple times"), w).
Proof.
  intros Hi. destruct ms; simpl; by destruct (Z.leb_spec i (index w)); [|lia].
Qed.

(** When a middleware calls [next] again after it has returned, among
    instrumented middlewares that call [next] once, the second call is
    rejected: the stages after it and the terminal stage have run once,
    the marks of the later stages are complete, those of the earlier
    stages stop at the rejected call, and the request is answered
    [SERVER_ERROR] with the error of the rejected call. *)
Theorem next_called_twice (self : DubboServer) (data : list Byte.byte)
    (tr : list Event) (service : IDubboService) (before after : list nat) :
  let request := decodeDubboRequest data in
  matchService self request = Some service →
  middlewares self = map probe before ++ call_twice :: map probe after →
  ∃ result,
    invokeComposeChainRequest self data tr
    = (result,
       tr ++ map Entered before ++ map Entered after
          ++ terminal_calls service request ++ map Left (rev after))
    ∧ status result = Some SERVER_ERROR
    ∧ err (body result) = VError "Error" "next() called multiple times"
    ∧ (∀ f, lookup_method (methods service) (methodName request) = Some (MFunction f) →
         terminal_calls service request
         = [Invoked (dubboInterface service) (methodName request)
              (default [] (args request) ++ [VCtx])]).
Proof.
  intros request Hmatch Hms.
  open_dispatcher request.
  rewrite Hmatch, (run_chain_probes _ _ _ _ before (call_twice :: map probe after)) by done.
  simpl app. rewrite dispatch_unfold by (apply (entered_index before 0); simpl; lia).
  unfold call_twice, bind.
  rewrite dispatch_probes by (simpl; lia).
  rewrite dispatch_unfold by (apply entered_index; simpl; lia).
  rewrite handleRequest_run. cbn [leave ctx index trace set_index].
  rewrite dispatch_rejected by (simpl; lia).
  simpl. rewrite ?entered_trace. simpl. rewrite ?entered_trace. simpl.
  rewrite <- !app_assoc.
  eexists. split_and!; [reflexivity..|].
  intros f Hm. by destruct (terminal_function service request f
                              (new_ResponseContext request) Hm).
Qed.

(** When the first middleware wraps [next] in a try statement and drops
    what it catches, no exception of a later stage reaches the dispatcher:
    the chain completes and the answer is the context as the chain left it;
    when the next stage throws at once, that is the fresh context, with no
    status and an empty body. *)
Theorem shielded_chain (self : DubboServer) (data : list Byte.byte)
    (tr : list Event) (service : IDubboService) (rest : list Middleware) :
  let request := decodeDubboRequest data in
  matchService self request = Some service →
  middlewares self = shield :: rest →
  (∃ w, run_chain self service request tr = (Normal tt, w)
        ∧ invokeComposeChainRequest self data tr = (ctx w, trace w))
  ∧ (Forall (keeps no_server_error) rest →
     member_quiet (lookup_method (methods service) (methodName request)) →
     status (fst (invokeComposeChainRequest self data tr)) ≠ Some SERVER_ERROR)
  ∧ (∀ e rest', rest = throw_before e :: rest' →
       invokeComposeChainRequest self data tr = (new_ResponseContext request, tr)).
Proof.
  intros request Hmatch Hms.
  assert (∃ w, run_chain self service request tr = (Normal tt, w)) as [w Hrun].
  { unfold run_chain, compose. rewrite Hms. simpl app.
    rewrite dispatch_unfold by (simpl; lia). unfold shield, try_catch.
    destruct (dispatch _ _ _) as [[[]|e] w]; by eexists. }
  split_and!.
  - exists w. split; [done|]. open_dispatcher request. by rewrite Hmatch, Hrun.
  - intros Hkeep Hquiet.
    assert (Forall (keeps no_server_error) (middlewares self)) as Hall.
    { rewrite Hms. apply Forall_cons. split; [|done].
      intros next Hnext w0 Hw0. unfold shield, try_catch.
      specialize (Hnext w0 Hw0). by destruct (next w0) as [[[]|e] w1]. }
    pose proof (run_chain_preserves self service request tr Hall Hquiet) as Hinv.
    open_dispatcher request. rewrite Hmatch, Hrun. simpl.
    by rewrite Hrun in Hinv.
  - intros e rest' ->. open_dispatcher request. rewrite Hmatch.
    unfold run_chain, compose. rewrite Hms. simpl app.
    rewrite dispatch_unfold by (simpl; lia). unfold shield, try_catch.
    rewrite dispatch_unfold by (simpl; lia). reflexivity.
Qed.

(** A sequence of calls of [use] leaves the functions among the arguments
    registered after those that were there, in the order of the calls; the
    calls that were rejected leave no trace, and the table, the descriptors
    and the port are untouched, so the router answers as before. *)
Theorem use_each_registers (self : DubboServer) (fns : list UseArg) :
  middlewares (use_each self fns) = middlewares self ++ callables fns
  ∧ serviceMap (use_each self fns) = serviceMap self
  ∧ services (use_each self fns) = services self
  ∧ port (use_each self fns) = port self
  ∧ ∀ request, matchService (use_each self fns) request = matchService self request.
Proof.
  assert (middlewares (use_each self fns) = middlewares self ++ callables fns
          ∧ serviceMap (use_each self fns) = serviceMap self
          ∧ services (use_each self fns) = services self
          ∧ port (use_each self fns) = port self) as (Hm & Ht & Hs & Hp).
  { unfold use_each. revert self. induction fns as [|fn fns IH]; intros self.
    - simpl. by rewrite app_nil_r.
    - simpl foldl. destruct (IH (snd (use self fn))) as (-> & -> & -> & ->).
      destruct fn as [fn|v]; simpl; [|done]. by rewrite <- app_assoc. }
  split_and!; try done. intros request. by apply matchService_table.
Qed.

End MoreDispatch.

(** ** Connections *)

Section MoreFrames.
Context {env : Collaborators}.

(** What a connection has written, dispatched and served does not depend
    on its heartbeat session. *)
Lemma onFrames_traffic (self : DubboServer) (frames : list (Z * list Byte.byte))
    (c c' : Connection) :
  written c = written c' → dispatched c = dispatched c' → served c = served c' →
  written (onFrames self c frames) = written (onFrames self c' frames)
  ∧ dispatched (onFrames self c frames) = dispatched (onFrames self c' frames)
  ∧ served (onFrames self c frames) = served (onFrames self c' frames).
Proof.
  unfold onFrames. revert c c'.
  induction frames as [|[now data] frames IH]; intros c c' Hw Hd Hs; [done|].
  change (foldl (onFrame self) ?x ((now, data) :: frames))
    with (foldl (onFrame self) (onFrame self x (now, data)) frames).
  destruct (isHeartBeat data) eqn:Hhb.
  - rewrite !onFrame_heartbeat by done. by apply IH.
  - rewrite !onFrame_request by done. apply IH; simpl; by rewrite ?Hw, ?Hd, ?Hs.
Qed.

(** Heartbeat frames are transparent to the requests of a connection: the
    frames written, the frames dispatched and the requests served are those
    of the stream with the heartbeat frames taken out, and the session is
    signalled once for each heartbeat frame. *)
Theorem heartbeats_transparent (self : DubboServer) (frames : list (Z * list Byte.byte))
    (c : Connection) :
  written (onFrames self c frames) = written (onFrames self c (request_frames frames))
  ∧ dispatched (onFrames self c frames)
    = dispatched (onFrames self c (request_frames frames))
  ∧ served (onFrames self c frames) = served (onFrames self c (request_frames frames))
  ∧ signals (heartbeat (onFrames self c frames))
    = (signals (heartbeat c) + heartbeat_count frames)%nat.
Proof.
  unfold onFrames, request_frames, heartbeat_count. revert c.
  induction frames as [|[now data] frames IH]; intros c.
  - simpl. split_and!; try done; lia.
  - change (foldl (onFrame self) c ((now, data) :: frames))
      with (foldl (onFrame self) (onFrame self c (now, data)) frames).
    destruct (IH (onFrame self c (now, data))) as (Hw & Hd & Hs & Hn).
    simpl List.filter. destruct (isHeartBeat data) eqn:Hhb; simpl negb; cbv iota.
    + rewrite onFrame_heartbeat in * by done.
      destruct (onFrames_traffic self
                  (List.filter (fun fr => negb (isHeartBeat (snd fr))) frames)
                  {| heartbeat := HeartBeat_emit now (heartbeat c); written := written c;
                     dispatched := dispatched c; served := served c |} c
                  eq_refl eq_refl eq_refl) as (Hw' & Hd' & Hs').
      unfold onFrames in Hw', Hd', Hs'.
      rewrite Hw, Hd, Hs, Hn, Hw', Hd', Hs'. simpl. split_and!; try done; lia.
    + change (foldl (onFrame self) c ((now, data) :: ?l))
        with (foldl (onFrame self) (onFrame self c (now, data)) l).
      rewrite Hw, Hd, Hs, Hn. rewrite onFrame_request by done. simpl.
      split_and!; done.
Qed.

End MoreFrames.

(** ** Provider URLs *)

Lemma string_forall_app (P : ascii → bool) (a b : string) :
  string_forall P (a +:+ b) = string_forall P a && string_forall P b.
Proof.
  induction a as [|c a IH]; [done|]. simpl. by rewrite IH, andb_assoc.
Qed.

Lemma escapeChar_safe (c : ascii) : string_forall url_safe (escapeChar c) = true.
Proof. destruct c as [[] [] [] [] [] [] [] []]; reflexivity. Qed.

Lemma encodeURIComponent_safe (s : string) :
  string_forall url_safe (encodeURIComponent s) = true.
Proof.
  induction s as [|c t IH]; [done|].
  simpl encodeURIComponent. by rewrite string_forall_app, escapeChar_safe, IH.
Qed.

(** Percent-encoding is one to one. *)
Lemma encodeURIComponent_inj (s s' : string) :
  encodeURIComponent s = encodeURIComponent s' → s = s'.
Proof.
  intros Heq. rewrite <- (decode_encodeURIComponent s), <- (decode_encodeURIComponent s').
  by rewrite Heq.
Qed.

Section MoreUrls.
Context {env : Collaborators}.

(** The URL published for a descriptor is made of letters, digits,
    [- _ . ! ~ * ' ( )] and [%] only, whatever the interface, the group, the
    version and the method names hold; and two URLs are the same only when
    the texts they encode are. *)
Theorem buildUrl_characters (self self' : DubboServer) (service service' : IDubboService)
    (now now' : Z) :
  string_forall url_safe (buildUrl self service now) = true
  ∧ (buildUrl self service now = buildUrl self' service' now' →
     raw_url self service now = raw_url self' service' now').
Proof.
  split.
  - apply encodeURIComponent_safe.
  - apply encodeURIComponent_inj.
Qed.

End MoreUrls.

(** ** The further properties on the example server *)

Lemma registerServices_table_witness :
  last_declared (services (new_DubboServer demo_props)) "com.foo.Bar" = Some fooBar
  ∧ serviceMap (fst (registerServices (new_DubboServer demo_props) 0)) !! "com.foo.Bar"
    = Some (normalize fooBar)
  ∧ serviceMap (fst (registerServices (new_DubboServer demo_props) 0)) !! "com.foo.Baz"
    = None.
Proof.
  destruct (registerServices_table (env := demo_env) (new_DubboServer demo_props) 0
              "com.foo.Bar") as (_ & Hlast & _).
  destruct (registerServices_table (env := demo_env) (new_DubboServer demo_props) 0
              "com.foo.Baz") as (_ & _ & Hother).
  split; [reflexivity|]. split; [exact (Hlast fooBar eq_refl)|].
  rewrite Hother; [reflexivity|].
  intros s Hs. simpl in Hs. apply list_elem_of_singleton in Hs. rewrite Hs.
  simpl. discriminate.
Defined.

Lemma reachable_table_entries_witness :
  reachable demo_props demo_server
  ∧ matchService demo_server (demo_decode [Byte.x01]) = Some (normalize fooBar)
  ∧ Attachment.path (attachment (demo_decode [Byte.x01]))
    = Some (dubboInterface (normalize fooBar))
  ∧ normalize fooBar ∈ services demo_server.
Proof.
  split; [exact demo_reachable|].
  assert (matchService demo_server (demo_decode [Byte.x01]) = Some (normalize fooBar))
    as Hmatch.
  { vm_compute. reflexivity. }
  split; [exact Hmatch|].
  destruct (reachable_table_entries (env := demo_env) demo_props demo_server
              demo_reachable) as [_ Hrouted].
  exact (Hrouted (demo_decode [Byte.x01]) (normalize fooBar) Hmatch).
Defined.

Lemma empty_version_never_matches_witness :
  reachable demo_props demo_server
  ∧ version (normalize {| dubboInterface := "com.foo.Bar"; group := None;
                          version := Some "";
                          methods := {| own := []; inherited := [] |} |}) = Some "0.0.0".
Proof.
  split; [exact demo_reachable|].
  destruct (empty_version_never_matches (env := demo_env) demo_props demo_server
              [Byte.x01] [] demo_reachable) as [Hdefault _].
  exact (Hdefault {| dubboInterface := "com.foo.Bar"; group := None;
                     version := Some "";
                          methods := {| own := []; inherited := [] |} |} eq_refl).
Defined.

Lemma no_services_nothing_found_witness :
  default [] (props_services empty_props) = []
  ∧ reachable empty_props (fst (listen (new_DubboServer empty_props) 20880 true 0))
  ∧ status (fst (invokeComposeChainRequest
                   (fst (listen (new_DubboServer empty_props) 20880 true 0))
                   [Byte.x01] []))
    = Some SERVICE_NOT_FOUND.
Proof.
  assert (reachable empty_props (fst (listen (new_DubboServer empty_props) 20880 true 0)))
    as Hreach.
  { apply (reach_listen empty_props (new_DubboServer empty_props)), reach_new. }
  split; [reflexivity|]. split; [exact Hreach|].
  destruct (no_services_nothing_found (env := demo_env) empty_props _ eq_refl Hreach)
    as [_ Hanswer].
  rewrite Hanswer. reflexivity.
Defined.

Lemma no_middleware_status_witness :
  middlewares demo_server = []
  ∧ invokeComposeChainRequest demo_server [Byte.x05] []
    = ({| request := demo_request "failing" None (Some "0.0.0");
          status := Some OK;
          body := {| res := VNull; err := VError "Error" "boom" |} |},
       [Invoked "com.foo.Bar" "failing" [VStr "world"; VCtx]]).
Proof.
  split; [reflexivity|].
  pose proof (no_middleware_status (env := demo_env) demo_server [Byte.x05] [] eq_refl)
    as H.
  cbv zeta in H.
  assert (matchService demo_server (decodeDubboRequest [Byte.x05])
          = Some (normalize fooBar)) as Hmatch.
  { vm_compute. reflexivity. }
  rewrite Hmatch in H. destruct H as ((w & Hrun & Heq) & _).
  rewrite Heq. vm_compute in Hrun. injection Hrun as <-. reflexivity.
Defined.

Lemma next_called_twice_witness :
  matchService demo_twice (demo_decode [Byte.x01]) = Some (normalize fooBar)
  ∧ middlewares demo_twice = map probe [1%nat] ++ call_twice :: map probe [2%nat]
  ∧ snd (invokeComposeChainRequest demo_twice [Byte.x01] [])
    = [Entered 1%nat; Entered 2%nat;
       Invoked "com.foo.Bar" "hello" [VStr "world"; VCtx]; Left 2%nat]
  ∧ status (fst (invokeComposeChainRequest demo_twice [Byte.x01] []))
    = Some SERVER_ERROR.
Proof.
  assert (matchService demo_twice (demo_decode [Byte.x01]) = Some (normalize fooBar))
    as Hmatch.
  { vm_compute. reflexivity. }
  split; [exact Hmatch|]. split; [reflexivity|].
  destruct (next_called_twice (env := demo_env) demo_twice [Byte.x01] []
              (normalize fooBar) [1%nat] [2%nat] Hmatch eq_refl)
    as (result & Heq & Hst & _).
  rewrite Heq. split; [reflexivity|exact Hst].
Defined.

Lemma shielded_chain_witness :
  matchService demo_shielded (demo_decode [Byte.x01]) = Some (normalize fooBar)
  ∧ middlewares demo_shielded = shield :: [throw_before (VStr "refused")]
  ∧ invokeComposeChainRequest demo_shielded [Byte.x01] []
    = (new_ResponseContext (demo_decode [Byte.x01]), []).
Proof.
  assert (matchService demo_shielded (demo_decode [Byte.x01]) = Some (normalize fooBar))
    as Hmatch.
  { vm_compute. reflexivity. }
  split; [exact Hmatch|]. split; [reflexivity|].
  destruct (shielded_chain (env := demo_env) demo_shielded [Byte.x01] []
              (normalize fooBar) [throw_before (VStr "refused")] Hmatch eq_refl)
    as (_ & _ & Hfresh).
  exact (Hfresh (VStr "refused") [] eq_refl).
Defined.

Lemma buildUrl_characters_witness :
  string_forall url_safe (buildUrl demo_server (normalize fooBar) 1600000000000) = true
  ∧ raw_url demo_server (normalize fooBar) 1600000000000
    = raw_url demo_server (normalize fooBar) 1600000000000.
Proof.
  destruct (buildUrl_characters (env := demo_env) demo_server demo_server
              (normalize fooBar) (normalize fooBar) 1600000000000 1600000000000)
    as [Hsafe Hinj].
  split; [exact Hsafe|exact (Hinj eq_refl)].
Defined.
